(** * jb-show-scraper-rss: a shallow embedding of [scraper.py]

    The scraper turns podcast feed items into episode files and keeps two
    run-scoped registries (sponsors, participants) that are flushed to
    front-matter files once per show.  This development embeds the
    orchestration code of [scraper.py] (file writer, registry update and
    flush, chapters retry loop, episode numbering, username
    canonicalisation, episode builder, per-show driver) and states its
    properties.

    Conventions.  A Python [str] is held as the [string] of its UTF-8
    encoding; what Python decides from the Unicode character database for
    characters outside ASCII (digits, numerics, lower case) is taken from
    the tables [UnicodeT].  A [dict] used as a map is a [gmap]; a dict
    whose iteration order matters is an association list.  Code that
    touches the outside world runs in the monad [M]: a state monad over
    [World] whose results are [Ok v] or [Raise e], the state surviving a
    raise as it does in Python.  Reading an attribute that a model class of
    [models/config.py] does not declare raises [AttributeError].  What the
    sources import but do not define (the network, BeautifulSoup, pydantic
    models that are not in the tree) is a field of [Env] or a definition
    marked as modelled. *)

From stdpp Require Import base option list gmap sets strings.
From Stdlib Require Import ZArith NArith Ascii DecimalString DecimalN Lia.

Local Open Scope Z_scope.
Local Open Scope string_scope.

(* ===================================================================== *)
(** * Python primitives *)
(* ===================================================================== *)

Module Py.

(** Exceptions the code raises, catches or lets through. *)
Inductive Exc :=
| HTTPError
| MissingSchema
| ChunkedEncodingError
| ConnectionError
| AttributeError
| TypeError
| ValueError
| KeyError
| ValidationError
| JSONDecodeError
| FileExistsError
| NotADirectoryError
| IsADirectoryError.

Inductive Result (A : Type) :=
| Ok (a : A)
| Raise (e : Exc).
Arguments Ok {A} a.
Arguments Raise {A} e.

#[global] Instance Exc_eq_dec : EqDecision Exc.
Proof. solve_decision. Defined.

(** ** Characters and strings

    In UTF-8 an ASCII character is one byte below 128; a character
    outside ASCII is a lead byte (192 or more) followed by continuation
    bytes (128 to 191). *)

Definition is_ascii_char (c : ascii) : bool := (nat_of_ascii c <? 128)%nat.

Fixpoint is_ascii (s : string) : bool :=
  match s with
  | EmptyString => true
  | String c r => is_ascii_char c && is_ascii r
  end.

Definition is_lead_byte (c : ascii) : bool := (192 <=? nat_of_ascii c)%nat.

(** What Python takes from the Unicode character database, where the
    text has characters outside ASCII. *)
Record UnicodeT := mkUnicode {
  (** the number of bytes of the decimal digit (category Nd) that a text
      starts with, [0] when it starts with none; asked for a text that
      starts with a lead byte *)
  u_digit : string → nat;
  (** [s.isnumeric()], asked for a text that is not all ASCII *)
  u_isnumeric : string → bool;
  (** [int(s)], asked for a text that is not a run of ASCII digits *)
  u_int : string → Result Z;
  (** [s.lower()], asked for a text that is not all ASCII *)
  u_lower : string → string;
}.

(** One of the ASCII digits [0] to [9]. *)
Definition is_digit (c : ascii) : bool :=
  let n := nat_of_ascii c in (48 <=? n)%nat && (n <=? 57)%nat.

Definition is_upper (c : ascii) : bool :=
  let n := nat_of_ascii c in (65 <=? n)%nat && (n <=? 90)%nat.

Definition lower_char (c : ascii) : ascii :=
  if is_upper c then ascii_of_nat (nat_of_ascii c + 32) else c.

(** [str.lower()] of an ASCII text. *)
Fixpoint ascii_lower (s : string) : string :=
  match s with
  | EmptyString => EmptyString
  | String c r => String (lower_char c) (ascii_lower r)
  end.

(** [str.lower()] *)
Definition lower (U : UnicodeT) (s : string) : string :=
  if is_ascii s then ascii_lower s else u_lower U s.

(** [s.startswith(p)], returning the rest of [s] after [p]. *)
Fixpoint strip_prefix (p s : string) : option string :=
  match p, s with
  | EmptyString, _ => Some s
  | String a p', String b s' => if Ascii.eqb a b then strip_prefix p' s' else None
  | String _ _, EmptyString => None
  end.

(** [str.replace(old, new)] for a non-empty [old]: occurrences are replaced
    left to right and do not overlap.  [skip] counts the characters of a
    match that are still to be dropped. *)
Fixpoint replace_go (old new : string) (skip : nat) (s : string) : string :=
  match s with
  | EmptyString => EmptyString
  | String c r =>
      match skip with
      | S k => replace_go old new k r
      | O =>
          match strip_prefix old s with
          | Some _ => new ++ replace_go old new (String.length old - 1)%nat r
          | None => String c (replace_go old new 0 r)
          end
      end
  end.

Definition replace (old new s : string) : string := replace_go old new 0 s.

(** [str.split(sep)] for a one-character separator. *)
Fixpoint split (sep : ascii) (s : string) : list string :=
  match s with
  | EmptyString => [EmptyString]
  | String c r =>
      if Ascii.eqb c sep then EmptyString :: split sep r
      else match split sep r with
           | h :: t => String c h :: t
           | [] => [String c EmptyString]
           end
  end.

(** [l[-1]] on the result of a split (which is never empty). *)
Definition last_item (l : list string) : string := List.last l EmptyString.

Fixpoint all_digits (s : string) : bool :=
  match s with
  | EmptyString => true
  | String c r => is_digit c && all_digits r
  end.

(** A run of ASCII digits that is not empty. *)
Definition is_decimal (s : string) : bool :=
  match s with
  | EmptyString => false
  | _ => all_digits s
  end.

(** [str.isnumeric()]: of an ASCII text, that it is a run of digits and
    not empty. *)
Definition isnumeric (U : UnicodeT) (s : string) : bool :=
  if is_ascii s then is_decimal s else u_isnumeric U s.

(** [int(s)] on a run of ASCII digits. *)
Definition int_of_digits (s : string) : Result Z :=
  match s with
  | EmptyString => Raise ValueError
  | _ => match NilEmpty.uint_of_string s with
         | Some d => Ok (Z.of_N (N.of_uint d))
         | None => Raise ValueError
         end
  end.

(** [int(s)] *)
Definition int_of_str (U : UnicodeT) (s : string) : Result Z :=
  if is_decimal s then int_of_digits s else u_int U s.

Fixpoint zeros (n : nat) : string :=
  match n with
  | O => EmptyString
  | S k => String "0" (zeros k)
  end.

(** [str(n)] for [n >= 0]. *)
Definition str_of_nonneg (n : Z) : string :=
  NilZero.string_of_uint (N.to_uint (Z.to_N n)).

(** [str(n)] *)
Definition str_of_int (n : Z) : string :=
  if (n <? 0)%Z then "-" ++ str_of_nonneg (- n) else str_of_nonneg n.

(** [f'{n:04}']: the decimal digits, padded with zeros to a width of at
    least 4, the sign of a negative number counting for the width. *)
Definition format_04 (n : Z) : string :=
  if (n <? 0)%Z then
    let d := str_of_nonneg (- n) in
    "-" ++ zeros (3 - String.length d)%nat ++ d
  else
    let d := str_of_nonneg n in
    zeros (4 - String.length d)%nat ++ d.

(** [sorted(l)] on strings (code-point order). *)
Fixpoint insert_sorted (x : string) (l : list string) : list string :=
  match l with
  | [] => [x]
  | y :: r => if String.leb x y then x :: l else y :: insert_sorted x r
  end.

Definition sorted (l : list string) : list string :=
  foldr insert_sorted [] l.

End Py.
Export Py.

(* ===================================================================== *)
(** * Front-matter documents and the file system *)
(* ===================================================================== *)

(** YAML scalars, as they occur in the metadata block of a document. *)
Inductive YamlValue :=
| YNull
| YBool (b : bool)
| YInt (z : Z)
| YStr (s : string).

#[global] Instance YamlValue_eq_dec : EqDecision YamlValue.
Proof. solve_decision. Defined.

(** Python truthiness of a metadata value. *)
Definition truthy (v : option YamlValue) : bool :=
  match v with
  | None | Some YNull => false
  | Some (YBool b) => b
  | Some (YInt z) => negb (Z.eqb z 0)
  | Some (YStr s) => negb (String.eqb s "")
  end.

(** [int(v)] on a metadata value. *)
Definition int_of_yaml (U : UnicodeT) (v : YamlValue) : Result Z :=
  match v with
  | YNull => Raise TypeError
  | YBool b => Ok (if b then 1 else 0)
  | YInt z => Ok z
  | YStr s => int_of_str U s
  end.

(** [frontmatter.Post]: a body and a metadata mapping. *)
Record Post := mkPost {
  content : string;
  metadata : gmap string YamlValue;
}.

(** What a file holds.  [FrontMatter p] is the text [dumps(p)]; [Text] is
    text that carries no metadata block; [Bytes] is written in mode "wb". *)
Inductive FileContent :=
| Text (s : string)
| Bytes (b : string)
| FrontMatter (p : Post).

(** [frontmatter.dumps] *)
Definition dumps (p : Post) : FileContent := FrontMatter p.

(** [frontmatter.load]: text without a metadata block is all body. *)
Definition load (c : FileContent) : Post :=
  match c with
  | FrontMatter p => p
  | Text s | Bytes s => mkPost s ∅
  end.

(** A path is the list of its components, root first, as they are spelled:
    two paths are the same file when they have the same components. *)
Abbreviation Path := (list string).

(** [p / name], for a name that is one component.  A name is not looked
    into: a separator or [..] inside it is part of the component. *)
Definition path_join (p : Path) (name : string) : Path := p ++ [name].
Infix "//" := path_join (at level 40, left associativity).

(** [Path.parent] *)
Definition parent (p : Path) : Path := removelast p.

(** [Path.name] *)
Definition path_name (p : Path) : string := List.last p "".

(** The directory [d] and all the directories above it. *)
Definition with_ancestors (d : Path) : list Path :=
  (fun n => take n d) <$> seq 0 (S (length d)).

Record FileSystem := mkFS {
  files : gmap Path FileContent;
  dirs : gset Path;
}.

(** [Path.exists()] *)
Definition path_exists (fs : FileSystem) (p : Path) : bool :=
  bool_decide (is_Some (files fs !! p)) || bool_decide (p ∈ dirs fs).

Definition is_file (fs : FileSystem) (p : Path) : bool :=
  bool_decide (is_Some (files fs !! p)).

(** [d.mkdir(parents=True, exist_ok=True)]: every missing directory on the
    way is created; a regular file in the way makes it raise. *)
Definition mkdir_parents (fs : FileSystem) (d : Path) : Result FileSystem :=
  if is_file fs d then Raise FileExistsError
  else if existsb (is_file fs) (with_ancestors d) then Raise NotADirectoryError
  else Ok (mkFS (files fs) (list_to_set (with_ancestors d) ∪ dirs fs)).

(** [open(p, mode).write(content)] *)
Definition write_file (fs : FileSystem) (p : Path) (c : FileContent) : Result FileSystem :=
  if bool_decide (p ∈ dirs fs) then Raise IsADirectoryError
  else Ok (mkFS (<[p := c]> (files fs)) (dirs fs)).

(* ===================================================================== *)
(** * Data model *)
(* ===================================================================== *)

(** [models/itunes.py]: [EPISODE_TYPES], the values the feed parser accepts
    for [<itunes:episodeType>]. *)
Inductive EpisodeType := Full | Trailer | Bonus.

(** The string an [EPISODE_TYPES] value is. *)
Definition EpisodeType_str (t : EpisodeType) : string :=
  match t with
  | Full => "Full"
  | Trailer => "Trailer"
  | Bonus => "Bonus"
  end.

(** [models/podcast.py]: [Person]. *)
Record Person := mkPerson {
  role : option string;
  group : option string;
  href : option string;
  img : option string;
  name : string;
}.

(** [models/podcast.py]: [Episode], the [<podcast:episode>] element. *)
Record PodcastEpisode := mkPodcastEpisode {
  display : option string;
  pe_episode : string;
}.

(** [models/podcast.py]: [Chapters], the [<podcast:chapters>] reference. *)
Record ChaptersRef := mkChaptersRef {
  url : string;
  type : string;
}.

(** Modelled from the spec: the feed item ([models/item.py] is not in the
    tree), with the attributes [scraper.py] reads. *)
Record Item := mkItem {
  item_title : string;
  link : string;
  item_description : string;
  content_encoded : option string;
  guid : string;
  pubDate : string;
  itunes_episodeType : option EpisodeType;
  itunes_subtitle : option string;
  itunes_keywords : option (list string);
  itunes_duration : string;
  enclosure_url : string;
  enclosure_length : Z;
  podcast_episode : option PodcastEpisode;
  podcast_persons : list Person;
  podcast_chapters : option ChaptersRef;
  podcast_value : option string;
  podcast_transcripts : list string;
}.

(** The episode number is an [int] when the episode string is numeric and
    the trailing segment of the link otherwise. *)
Inductive EpisodeNumber :=
| EpInt (n : Z)
| EpStr (s : string).

(** [f'{episode_number}'] *)
Definition EpisodeNumber_str (e : EpisodeNumber) : string :=
  match e with
  | EpInt n => str_of_int n
  | EpStr s => s
  end.

(** Modelled from the spec: the validated chapters document
    ([models/episode.py] is not in the tree); its JSON text stands for it. *)
Record ChaptersData := mkChaptersData { chapters_json : string }.

(** Modelled from the spec: the canonical episode record
    ([models/episode.py] is not in the tree), with the fields
    [build_episode_file] passes to its constructor. *)
Record Episode := mkEpisode {
  show_slug : string;
  show_name : string;
  episode : EpisodeNumber;
  episode_padded : string;
  episode_guid : string;
  title : string;
  description : string;
  date : string;
  tags : list string;
  hosts : list string;
  guests : list string;
  sponsors : list string;
  podcast_duration : string;
  podcast_file : string;
  podcast_bytes : Z;
  ep_podcast_chapters : option ChaptersData;
  podcast_alt_file : option string;
  podcast_ogg_file : option string;
  video_file : option string;
  video_hd_file : option string;
  video_mobile_file : option string;
  youtube_link : option string;
  jb_url : string;
  fireside_url : string;
  value : option string;
  episode_links : string;
  transcripts : list string;
}.

Definition set_hosts (h : list string) (e : Episode) : Episode :=
  mkEpisode (show_slug e) (show_name e) (episode e) (episode_padded e)
    (episode_guid e) (title e) (description e) (date e) (tags e) h (guests e)
    (sponsors e) (podcast_duration e) (podcast_file e) (podcast_bytes e)
    (ep_podcast_chapters e) (podcast_alt_file e) (podcast_ogg_file e)
    (video_file e) (video_hd_file e) (video_mobile_file e) (youtube_link e)
    (jb_url e) (fireside_url e) (value e) (episode_links e) (transcripts e).

(** Modelled from the spec: the sponsor record ([models/sponsor.py] is not in
    the tree): a shortname and the episode of the mention, which may be
    missing. *)
Record Sponsor := mkSponsor {
  shortname : string;
  sponsor_episode : option Z;
}.

#[global] Instance Sponsor_eq_dec : EqDecision Sponsor.
Proof. solve_decision. Defined.

Definition yaml_opt_int (o : option Z) : YamlValue :=
  match o with Some z => YInt z | None => YNull end.

Definition yaml_opt_str (o : option string) : YamlValue :=
  match o with Some s => YStr s | None => YNull end.

(** [sponsor.model_dump(mode='json')] *)
Definition Sponsor_dump (s : Sponsor) : gmap string YamlValue :=
  <["shortname" := YStr (shortname s)]>
    (<["episode" := yaml_opt_int (sponsor_episode s)]> ∅).

(** Modelled from the spec: the participant record ([models/participant.py]
    is not in the tree): role class, canonical username, display name,
    optional homepage and optional avatar path, the five fields
    [build_participants] passes to its constructor. *)
Inductive ParticipantType := host | guest.

Record Participant := mkParticipant {
  p_type : ParticipantType;
  username : string;
  p_title : string;
  homepage : option string;
  avatar : option string;
}.

Definition ParticipantType_str (t : ParticipantType) : string :=
  match t with host => "host" | guest => "guest" end.

(** [participant.model_dump(mode='json')] *)
Definition Participant_dump (p : Participant) : gmap string YamlValue :=
  <["type" := YStr (ParticipantType_str (p_type p))]>
    (<["username" := YStr (username p)]>
      (<["title" := YStr (p_title p)]>
        (<["homepage" := yaml_opt_str (homepage p)]>
          (<["avatar" := yaml_opt_str (avatar p)]> ∅)))).

(** Validation of one field, as pydantic does it: a required string, and an
    optional string whose default is [None]. *)
Definition required_str (md : gmap string YamlValue) (k : string) : Result string :=
  match md !! k with
  | Some (YStr s) => Ok s
  | _ => Raise ValidationError
  end.

Definition optional_str (md : gmap string YamlValue) (k : string) : Result (option string) :=
  match md !! k with
  | None | Some YNull => Ok None
  | Some (YStr s) => Ok (Some s)
  | Some _ => Raise ValidationError
  end.

Definition result_bind {A B} (r : Result A) (f : A → Result B) : Result B :=
  match r with
  | Ok a => f a
  | Raise e => Raise e
  end.

(** The [Participant] constructor applied to the metadata as keyword
    arguments: the declared fields are validated and kept;
    keys the model does not declare are ignored ([extra='ignore'], the
    configuration of the base models in [models/config.py]). *)
Definition Participant_validate (md : gmap string YamlValue) : Result Participant :=
  result_bind (required_str md "type") (λ t,
  result_bind (if String.eqb t "host" then Ok host
               else if String.eqb t "guest" then Ok guest
               else Raise ValidationError) (λ ty,
  result_bind (required_str md "username") (λ u,
  result_bind (required_str md "title") (λ ti,
  result_bind (optional_str md "homepage") (λ h,
  result_bind (optional_str md "avatar") (λ a,
  Ok (mkParticipant ty u ti h a))))))).

(** What the registries hold and the flush receives: [Participant | Sponsor]. *)
Inductive RegistryObject :=
| ObjSponsor (s : Sponsor)
| ObjParticipant (p : Participant).

(** [obj.model_dump(mode='json')] *)
Definition model_dump (o : RegistryObject) : gmap string YamlValue :=
  match o with
  | ObjSponsor s => Sponsor_dump s
  | ObjParticipant p => Participant_dump p
  end.

(** Modelled from the spec: the global settings ([models/scraper.py] is not
    in the tree). *)
Record SettingsT := mkSettings {
  DATA_DIR : Path;
  Retry_Count : nat;
  Overwrite_Existing : bool;
  LATEST_ONLY : bool;
  LATEST_ONLY_EP_LIMIT : nat;
  Host_Roles : list string;
  Guest_Roles : list string;
}.

(** [models/config.py]: [ShowDetails]. *)
Record ShowDetails := mkShowDetails {
  show_rss : string;
  show_url : string;
  sd_jb_url : string;
  acronym : string;
  sd_name : string;
}.

(** [models/config.py]: [ConfigData].  The dict is iterated in insertion
    order, so it is an association list. *)
Record ConfigData := mkConfigData {
  shows : list (string * ShowDetails);
}.

(** ** Attributes that are read but not declared

    [scraper.py] reads four attributes that the classes of
    [models/config.py] do not declare: [host_platform] and [dont_override]
    of a [ShowDetails], [usernames_map] and [data_dont_override] of the
    [ConfigData] (the module has the annotation [usernames_map] after the
    class, at top level).  The base model drops undeclared keys when an
    object is built ([extra='ignore']), so each of these reads raises
    [AttributeError]. *)
Definition undeclared {A} : Result A := Raise AttributeError.

(** [show_details.host_platform] *)
Definition host_platform (show_details : ShowDetails) : Result (option string) :=
  undeclared.

(** [show_details.dont_override] *)
Definition dont_override (show_details : ShowDetails) : Result (gset string) :=
  undeclared.

(** [CONFIGURATION.usernames_map] *)
Definition usernames_map (c : ConfigData) : Result (list (string * gset string)) :=
  undeclared.

(** [CONFIGURATION.data_dont_override] *)
Definition data_dont_override (c : ConfigData) : Result (gset string) :=
  undeclared.

(* ===================================================================== *)
(** * The world the scraper runs in *)
(* ===================================================================== *)

Inductive Level := DEBUG | INFO | SUCCESS | WARNING | ERROR.

(** One constructor per message template of [scraper.py]. *)
Inductive LogMsg :=
| SkipSavingExists (p : Path)
| SavedFile (p : Path)
| SkipSavingNotOverwriting (p : Path)
| SkipSavingLatest (p : Path)
| FoundInDontOverride (filename : string)
| SkippingEpisodeType (t : string) (item_title : string)
| CouldNotGetEpisodePage (show_name : string) (ep : EpisodeNumber)
| FailedSponsorData (show : string) (ep : EpisodeNumber) (e : Exc)
| FailedTags (show : string) (ep : EpisodeNumber) (e : Exc)
| ChaptersWillRetry (url : string)
| InvalidChaptersJSON (url : string)
| UnableToRetrieveChapters (url : string)
| FailedToSaveAvatar (img_url : string) (username : string)
| LimitingScraping (n : nat)
| FeedInvalid
| SavingSponsors
| FinishedSponsors
| SavingParticipants
| FinishedParticipants
| ScraperStarted
| AllDone.

(** The functions of the HTML content cleaner. *)
Inductive Cleaner := GetLinks | GetDescription | GetPlainTitle | GetPicks.

(** What a run leaves behind for an observer: log records, and the calls
    made to the content cleaner. *)
Inductive Event :=
| Log (lvl : Level) (msg : LogMsg)
| Call (f : Cleaner) (arg : string).

(** [requests.Response] *)
Record Response := mkResponse {
  status_ok : bool;
  text : string;
}.

Record World := mkWorld {
  fs : FileSystem;
  events : list Event;              (* newest first *)
  requests : nat;                   (* HTTP requests made so far *)
  SPONSORS : gmap string Sponsor;
  PARTICIPANTS : gmap string Participant;
}.

Inductive Platform := Podhome | Fireside.

(** The read-only globals and everything the sources import but do not
    define. *)
Record Env := mkEnv {
  Settings : SettingsT;
  CONFIGURATION : ConfigData;
  (** [requests.get(url)], the n-th request of the run *)
  requests_get : nat → string → Result Response;
  (** [SponsorParser(page, show_details, strategy, episode).run()] *)
  SponsorParser_run :
    Platform → string → ShowDetails → EpisodeNumber → Result (list (string * Sponsor));
  (** [TagParser(page, show_details, strategy).run()] *)
  TagParser_run : Platform → string → ShowDetails → Result (list string);
  (** [Chapters.model_validate_json(text)]; [None] is a [ValidationError] *)
  Chapters_model_validate_json : string → option ChaptersData;
  (** the HTML content cleaner of [scraper.py], which runs BeautifulSoup *)
  get_links : string → Result string;
  get_description : string → Result string;
  get_plain_title : string → Result string;
  (** the picks found in a description, as file name and document *)
  find_picks :
    string → EpisodeNumber → string → ShowDetails → Result (list (string * FileContent));
  (** [episode.get_hugo_md_file_content()] *)
  get_hugo_md_file_content : Episode → FileContent;
  (** [Rss.from_xml(response.content).channel.items] *)
  Rss_from_xml : string → Result (list Item);
  (** lines 477-482 of [main], which run BeautifulSoup: the feed with the
      URL of the podcast namespace put right *)
  fix_podcast_namespace : string → Result string;
  (** the Unicode tables of the interpreter *)
  Unicode : UnicodeT;
}.

(** ** The monad *)

Definition M (A : Type) : Type := World → Result A * World.

#[global] Instance M_ret : MRet M := λ A (a : A) w, (Ok a, w).

#[global] Instance M_bind : MBind M := λ A B (f : A → M B) (m : M A) w,
  match m w with
  | (Ok a, w') => f a w'
  | (Raise e, w') => (Raise e, w')
  end.

Definition raise {A} (e : Exc) : M A := λ w, (Raise e, w).

(** [try: m], handing the outcome to the handlers. *)
Definition try {A} (m : M A) : M (Result A) := λ w,
  let '(r, w') := m w in (Ok r, w').

Definition lift {A} (r : Result A) : M A := λ w, (r, w).

Definition emit (e : Event) : M unit := λ w,
  (Ok (), mkWorld (fs w) (e :: events w) (requests w) (SPONSORS w) (PARTICIPANTS w)).

Definition log (lvl : Level) (msg : LogMsg) : M unit := emit (Log lvl msg).

Definition get_world : M World := λ w, (Ok w, w).

Definition set_fs (f : FileSystem) : M unit := λ w,
  (Ok (), mkWorld f (events w) (requests w) (SPONSORS w) (PARTICIPANTS w)).

Definition set_SPONSORS (s : gmap string Sponsor) : M unit := λ w,
  (Ok (), mkWorld (fs w) (events w) (requests w) s (PARTICIPANTS w)).

Definition set_PARTICIPANTS (p : gmap string Participant) : M unit := λ w,
  (Ok (), mkWorld (fs w) (events w) (requests w) (SPONSORS w) p).

(** [requests.get(url)] *)
Definition http_get (env : Env) (url : string) : M Response := λ w,
  (requests_get env (requests w) url,
   mkWorld (fs w) (events w) (S (requests w)) (SPONSORS w) (PARTICIPANTS w)).

(** [response.raise_for_status()] *)
Definition raise_for_status (r : Response) : M unit :=
  if status_ok r then mret () else raise HTTPError.

(** A call into the content cleaner. *)
Definition clean (f : Cleaner) (run : string → Result string) (arg : string) : M string :=
  emit (Call f arg);; lift (run arg).

(** [for x in l: body(x)] *)
Fixpoint for_each {A} (l : list A) (body : A → M unit) : M unit :=
  match l with
  | [] => mret ()
  | x :: r => body x;; for_each r body
  end.

(* ===================================================================== *)
(** * Idempotent writer and registry flush *)
(* ===================================================================== *)

(** [save_file(file_path, content, mode, overwrite)] *)
Definition save_file (file_path : Path) (content : FileContent) (overwrite : bool)
  : M bool :=
  w ← get_world;
  if negb overwrite && path_exists (fs w) file_path then
    log WARNING (SkipSavingExists file_path);;
    mret false
  else
    fs1 ← lift (mkdir_parents (fs w) (parent file_path));
    set_fs fs1;;
    fs2 ← lift (write_file fs1 file_path content);
    set_fs fs2;;
    log INFO (SavedFile file_path);;
    mret true.

(** [open(file_path)] followed by [frontmatter.load(file)] *)
Definition load_file (file_path : Path) : M Post :=
  w ← get_world;
  match files (fs w) !! file_path with
  | Some c => mret (load c)
  | None => raise IsADirectoryError
  end.

(** [int(file_ep) >= getattr(obj, 'episode', -1)]: comparing with [None]
    is a [TypeError]. *)
Definition file_is_latest (U : UnicodeT) (file_ep : YamlValue) (s : Sponsor)
  : Result bool :=
  result_bind (int_of_yaml U file_ep) (λ n,
    match sponsor_episode s with
    | Some e => Ok (e <=? n)%Z
    | None => Raise TypeError
    end).

(** Lines 441-454 of [process_and_serialize_object]: what is done when the
    file exists and is not exempted. *)
Definition update_existing (env : Env) (file_path : Path) (obj : RegistryObject)
    (overwrite : bool) : M unit :=
  post_file ← load_file file_path;
  match obj with
  | ObjSponsor s =>
      let file_ep := metadata post_file !! "episode" in
      skip ← (if truthy file_ep
              then lift (file_is_latest (Unicode env) (default YNull file_ep) s)
              else mret false);
      if (skip : bool) then
        log WARNING (SkipSavingLatest file_path)
      else
        save_file file_path (dumps (mkPost "" (model_dump obj))) overwrite;;
        mret ()
  | ObjParticipant p =>
      let merged :=
        <["avatar" := yaml_opt_str (avatar p)]>
          (<["homepage" := yaml_opt_str (homepage p)]> (metadata post_file)) in
      obj' ← lift (Participant_validate merged);
      save_file file_path
        (dumps (mkPost "" (model_dump (ObjParticipant obj')))) overwrite;;
      mret ()
  end.

(** [process_and_serialize_object(filename, obj, dest_dir, overwrite)].
    The exemption test of line 431 reads [CONFIGURATION.data_dont_override]
    when the path exists. *)
Definition process_and_serialize_object (env : Env) (filename : string)
    (obj : RegistryObject) (dest_dir : Path) (overwrite : bool) : M unit :=
  let file_path := dest_dir // filename in
  w ← get_world;
  exempted ← (if path_exists (fs w) file_path then
                names ← lift (data_dont_override (CONFIGURATION env));
                mret (bool_decide (filename ∈ names))
              else mret false);
  if (exempted : bool) then
    log WARNING (FoundInDontOverride filename)
  else if negb (path_exists (fs w) file_path) then
    save_file file_path (dumps (mkPost "" (model_dump obj))) overwrite;;
    mret ()
  else
    update_existing env file_path obj overwrite.

(** The executor of [save_sponsors] and [save_participants]: one flush task
    per registry entry.  A task that raises keeps its exception in its
    future; the others still run. *)
Fixpoint run_tasks {A} (tasks : list (M A)) : M (list (Result A)) :=
  match tasks with
  | [] => mret []
  | t :: r =>
      x ← try t;
      xs ← run_tasks r;
      mret (x :: xs)
  end.

(** [for future in as_completed(futures): future.result()]: the first
    exception found is raised again. *)
Fixpoint drain {A} (futures : list (Result A)) : M unit :=
  match futures with
  | [] => mret ()
  | Ok _ :: r => drain r
  | Raise e :: _ => raise e
  end.

(** [save_sponsors(executor)].  The entries are taken in the order of the
    map; each is flushed to a file of its own. *)
Definition save_sponsors (env : Env) : M unit :=
  log INFO SavingSponsors;;
  w ← get_world;
  let sponsors_dir := DATA_DIR (Settings env) // "content" // "sponsors" in
  futures ← run_tasks
    ((λ '(filename, sponsor),
        process_and_serialize_object env filename (ObjSponsor sponsor) sponsors_dir
          (Overwrite_Existing (Settings env)))
     <$> map_to_list (SPONSORS w));
  drain futures;;
  log INFO FinishedSponsors;;
  set_SPONSORS ∅.

(** [save_participants(executor)] *)
Definition save_participants (env : Env) : M unit :=
  log INFO SavingParticipants;;
  w ← get_world;
  let person_dir := DATA_DIR (Settings env) // "content" // "people" in
  futures ← run_tasks
    ((λ '(filename, participant),
        process_and_serialize_object env filename (ObjParticipant participant) person_dir
          (Overwrite_Existing (Settings env)))
     <$> map_to_list (PARTICIPANTS w));
  drain futures;;
  log INFO FinishedParticipants;;
  set_PARTICIPANTS ∅.

(* ===================================================================== *)
(** * Chapters fetch *)
(* ===================================================================== *)

(** How the [for ... else] loop of [get_podcast_chapters] is left: by a
    [return] in a handler, by [break], or by running out of attempts. *)
Inductive LoopExit :=
| Returned
| Broke (response : option Response)
| Exhausted (response : option Response).

(** The loop body, [n] attempts left; [response] is the local variable. *)
Fixpoint chapters_loop (env : Env) (chapters : option ChaptersRef) (n : nat)
    (response : option Response) : M LoopExit :=
  match n with
  | O => mret (Exhausted response)
  | S k =>
      match chapters with
      | None => mret Returned                       (* [chapters.url]: AttributeError *)
      | Some c =>
          r ← try (http_get env (url c));
          match r with
          | Raise ChunkedEncodingError =>
              log WARNING (ChaptersWillRetry (url c));;
              chapters_loop env chapters k response
          | Raise HTTPError => mret Returned
          | Raise AttributeError => mret Returned
          | Raise ValidationError =>
              log WARNING (InvalidChaptersJSON (url c));;
              mret Returned
          | Raise e => raise e
          | Ok resp =>
              if negb (status_ok resp) then mret Returned     (* HTTPError *)
              else if String.eqb (text resp) "" then
                chapters_loop env chapters k (Some resp)
              else
                match Chapters_model_validate_json env (text resp) with
                | None =>
                    log WARNING (InvalidChaptersJSON (url c));;
                    mret Returned
                | Some _ => mret (Broke (Some resp))
                end
          end
      end
  end.

(** The last statement of the function: the [Chapters] constructor on the
    keywords of [response.json()]. *)
Definition chapters_of_response (env : Env) (response : option Response)
  : M (option ChaptersData) :=
  match response with
  | None => raise AttributeError
  | Some resp =>
      if String.eqb (text resp) "" then raise JSONDecodeError
      else match Chapters_model_validate_json env (text resp) with
           | Some c => mret (Some c)
           | None => raise ValidationError
           end
  end.

(** [get_podcast_chapters(chapters)] *)
Definition get_podcast_chapters (env : Env) (chapters : option ChaptersRef)
  : M (option ChaptersData) :=
  ex ← chapters_loop env chapters (Retry_Count (Settings env)) None;
  match ex with
  | Returned => mret None
  | Broke response => chapters_of_response env response
  | Exhausted response =>
      match chapters with
      | None => raise AttributeError
      | Some c =>
          log ERROR (UnableToRetrieveChapters (url c));;
          chapters_of_response env response
      end
  end.

(* ===================================================================== *)
(** * Canonicalisation *)
(* ===================================================================== *)

(** [get_canonical_username(username)]: the first key whose alias set holds
    the name, else the name lowercased with hyphens for spaces.  The
    generator reads [CONFIGURATION.usernames_map] when it is made, before
    the default is worked out.  The keys are strings, so the
    [str.__instancecheck__] filter keeps them all. *)
Definition get_canonical_username (env : Env) (person : Person) : Result string :=
  result_bind (usernames_map (CONFIGURATION env)) (λ aliases,
    Ok match List.find (λ '(_, names), bool_decide (name person ∈ (names : gset string)))
               aliases with
       | Some (key, _) => key
       | None => replace " " "-" (lower (Unicode env) (name person))
       end).

(* ===================================================================== *)
(** * Episode numbering *)
(* ===================================================================== *)

(** The number of bytes of the longest run of decimal digits, ASCII or
    not, at the start of [s]; [skip] counts the bytes of a digit outside
    ASCII that are still to be passed. *)
Fixpoint digit_run (U : UnicodeT) (skip : nat) (s : string) : nat :=
  match s with
  | EmptyString => O
  | String c r =>
      match skip with
      | S k => S (digit_run U k r)
      | O =>
          if is_digit c then S (digit_run U 0 r)
          else if is_lead_byte c then
            match u_digit U s with
            | S k => S (digit_run U k r)
            | O => O
            end
          else O
      end
  end.

Fixpoint take_str (n : nat) (s : string) : string :=
  match n, s with
  | S k, String c r => String c (take_str k r)
  | _, _ => EmptyString
  end.

Fixpoint drop_str (n : nat) (s : string) : string :=
  match n, s with
  | S k, String _ r => drop_str k r
  | _, _ => s
  end.

(** [\d+:] at the start of [s]: the longest run of digits, which must not
    be empty and must be followed by a colon. *)
Definition digits_colon (U : UnicodeT) (s : string) : option string :=
  match digit_run U 0 s with
  | O => None
  | n => match drop_str n s with
         | String ":" _ => Some (take_str n s)
         | _ => None
         end
  end.

(** [((?:Pocket Office )?\d+):] at the start of [s]: the group. *)
Definition number_group (U : UnicodeT) (s : string) : option string :=
  match strip_prefix "Pocket Office " s with
  | Some r =>
      match digits_colon U r with
      | Some ds => Some ("Pocket Office " ++ ds)
      | None => digits_colon U s
      end
  | None => digits_colon U s
  end.

Definition newline : ascii := ascii_of_nat 10.

(** [re.match(r'.*?((?:Pocket Office )?\d+):', title)]: the lazy prefix
    grows one character at a time and does not cross a newline. *)
Fixpoint match_number (U : UnicodeT) (s : string) : option string :=
  match number_group U s with
  | Some g => Some g
  | None =>
      match s with
      | EmptyString => None
      | String c r => if Ascii.eqb c newline then None else match_number U r
      end
  end.

(** [parse_episode_number(title)] *)
Definition parse_episode_number (U : UnicodeT) (title : string) : string :=
  match match_number U title with
  | Some g => g
  | None => ""                                      (* AttributeError *)
  end.

(** The episode string of an item (line 162). *)
Definition episode_string (U : UnicodeT) (item : Item) : string :=
  match podcast_episode item with
  | Some pe => pe_episode pe
  | None => parse_episode_number U (item_title item)
  end.

(** [episode_number, episode_number_padded] (line 163). *)
Definition episode_numbers (U : UnicodeT) (item : Item) : Result (EpisodeNumber * string) :=
  let s := episode_string U item in
  if isnumeric U s then
    result_bind (int_of_str U s) (λ n, Ok (EpInt n, format_04 n))
  else
    let seg := last_item (split "/" (link item)) in
    Ok (EpStr seg, seg).

(** The name of the episode file (line 165). *)
Definition episode_file_name (episode_number_padded : string) : string :=
  replace "/" "" episode_number_padded ++ ".md".

(* ===================================================================== *)
(** * Sponsor and tag extraction *)
(* ===================================================================== *)

(** [match show_details.host_platform] *)
Definition parse_strategy (show_details : ShowDetails) : Result Platform :=
  result_bind (host_platform show_details) (λ platform,
    Ok match platform with
       | Some "podhome" => Podhome
       | _ => Fireside
       end).

(** [int(sponsor.episode or -1)] *)
Definition sponsor_number (s : Sponsor) : Z :=
  match sponsor_episode s with
  | Some e => if Z.eqb e 0 then -1 else e
  | None => -1
  end.

(** [SPONSORS.get(key, SimpleNamespace(episode=-1)).episode] *)
Definition registered_episode (reg : gmap string Sponsor) (key : string) : option Z :=
  match reg !! key with
  | Some s => sponsor_episode s
  | None => Some (-1)
  end.

(** The condition of the comprehension on line 117; comparing an [int]
    with [None] is a [TypeError]. *)
Definition is_newer (reg : gmap string Sponsor) (key : string) (s : Sponsor) : Result bool :=
  match registered_episode reg key with
  | Some e => Ok (e <? sponsor_number s)%Z
  | None => Raise TypeError
  end.

(** The list comprehension on line 117, evaluated against the registry as
    it is before the update. *)
Fixpoint newer_sponsors (reg : gmap string Sponsor) (items : list (string * Sponsor))
  : Result (list (string * Sponsor)) :=
  match items with
  | [] => Ok []
  | (key, s) :: r =>
      result_bind (is_newer reg key s) (λ b,
      result_bind (newer_sponsors reg r) (λ rest,
      Ok (if (b : bool) then (key, s) :: rest else rest)))
  end.

(** [dict.update(pairs)] *)
Definition dict_update {V} (d : gmap string V) (pairs : list (string * V)) : gmap string V :=
  foldl (λ m kv, <[kv.1 := kv.2]> m) d pairs.

(** Line 117: the registry after the sponsors of one page are merged in. *)
Definition update_SPONSORS (reg : gmap string Sponsor) (sponsors : list (string * Sponsor))
  : Result (gmap string Sponsor) :=
  result_bind (newer_sponsors reg sponsors) (λ l, Ok (dict_update reg l)).

(** [parse_sponsors(page_url, episode_number, show, show_details)] *)
Definition parse_sponsors (env : Env) (page_url : string) (episode_number : EpisodeNumber)
    (show : string) (show_details : ShowDetails) : M (list string) :=
  response ← http_get env page_url;
  raise_for_status response;;
  strategy ← lift (parse_strategy show_details);
  r ← try (lift (SponsorParser_run env strategy (text response)
                   show_details episode_number));
  sponsors ← match r with
             | Ok d => mret d
             | Raise e =>
                 log WARNING (FailedSponsorData show episode_number e);;
                 mret []
             end;
  w ← get_world;
  reg ← lift (update_SPONSORS (SPONSORS w) sponsors);
  set_SPONSORS reg;;
  mret ((λ kv, shortname kv.2) <$> sponsors).

(** [parse_tags(page_url, episode_number, show, show_details)] *)
Definition parse_tags (env : Env) (page_url : string) (episode_number : EpisodeNumber)
    (show : string) (show_details : ShowDetails) : M (list string) :=
  r ← try (http_get env page_url);
  match r with
  | Raise MissingSchema => mret []
  | Raise e => raise e
  | Ok response =>
      strategy ← lift (parse_strategy show_details);
      t ← try (lift (TagParser_run env strategy (text response) show_details));
      match t with
      | Ok tags => mret tags
      | Raise e =>
          log WARNING (FailedTags show episode_number e);;
          mret []
      end
  end.

(* ===================================================================== *)
(** * Participants and picks *)
(* ===================================================================== *)

Definition in_roles (roles : list string) (person : Person) : bool :=
  match role person with
  | Some r => bool_decide (r ∈ roles)
  | None => false
  end.

(** [str(participant.img).split(".")[-1]] *)
Definition img_extension (img : string) : string := last_item (split "." img).

(** [save_avatar_img(img_url, username, relative_filepath)], the relative
    path being [images/people/<file_name>]. *)
Definition save_avatar_img (env : Env) (img_url username file_name : string) : M unit :=
  let full_filepath :=
    DATA_DIR (Settings env) // "static" // "images" // "people" // file_name in
  r ← try (
    w ← get_world;
    if path_exists (fs w) full_filepath then
      log WARNING (SkipSavingExists full_filepath)
    else
      resp ← http_get env img_url;
      raise_for_status resp;;
      save_file full_filepath (Bytes (text resp)) false;;
      log INFO (SavedFile full_filepath));
  match r with
  | Ok _ => mret ()
  | Raise _ => log ERROR (FailedToSaveAvatar img_url username)
  end.

(** A truthy optional string: present and not empty. *)
Definition nonempty (o : option string) : option string :=
  match o with
  | Some "" | None => None
  | Some s => Some s
  end.

(** [build_participants(participants)] *)
Definition build_participants (env : Env) (participants : list Person) : M unit :=
  let st := Settings env in
  for_each
    (List.filter (in_roles (Host_Roles st ++ Guest_Roles st)) participants)
    (λ participant,
      canonical_username ← lift (get_canonical_username env participant);
      let filename := canonical_username ++ ".md" in
      let avatar_name :=
        (λ i, canonical_username ++ "." ++ img_extension i) <$> nonempty (img participant) in
      match nonempty (img participant), avatar_name with
      | Some i, Some n => save_avatar_img env i canonical_username n
      | _, _ => mret ()
      end;;
      w ← get_world;
      set_PARTICIPANTS
        (<[filename :=
             mkParticipant
               (if in_roles (Host_Roles st) participant then host else guest)
               canonical_username
               (name participant)
               (nonempty (href participant))
               ((λ n, "/images/people/" ++ n) <$> avatar_name)]>
           (PARTICIPANTS w))).

(** [get_picks(description, episode_number, show, show_details)] *)
Definition get_picks (env : Env) (description : string) (episode_number : EpisodeNumber)
    (show : string) (show_details : ShowDetails) : M unit :=
  emit (Call GetPicks description);;
  picks ← lift (find_picks env description episode_number show show_details);
  for_each picks (λ '(file_name, doc),
    save_file (DATA_DIR (Settings env) // "data" // "picks" // file_name) doc true;;
    mret ()).

(* ===================================================================== *)
(** * Episode builder *)
(* ===================================================================== *)

(** The [return] statement a call of [build_episode_file] leaves by
    (the Python function itself returns [None] on every path). *)
Inductive BuildOutcome :=
| SkippedBonus
| SkippedExists
| FailedPage
| Built (ep : Episode) (written : bool).

(** [item.itunes_episodeType == 'bonus'] *)
Definition is_bonus (item : Item) : bool :=
  match itunes_episodeType item with
  | Some t => String.eqb (EpisodeType_str t) "bonus"
  | None => false
  end.

Definition launch_call : string := "**CALL 1-774-462-5667**".

(** The phone-number patch of the links of [the-launch]. *)
Definition patch_links (show episode_links : string) : string :=
  if String.eqb show "the-launch" then
    match strip_prefix "****" episode_links with
    | Some _ => replace "****" launch_call episode_links
    | None => launch_call ++ String newline (String newline episode_links)
    end
  else episode_links.

(** [list(map(f, l))] for an [f] that may raise. *)
Fixpoint map_result {A B} (f : A → Result B) (l : list A) : Result (list B) :=
  match l with
  | [] => Ok []
  | x :: r => result_bind (f x) (λ y, result_bind (map_result f r) (λ ys, Ok (y :: ys)))
  end.

(** [sorted(list(map(get_canonical_username, list(filter(lambda person:
    person.role in roles, persons)))))] *)
Definition role_usernames (env : Env) (roles : list string) (persons : list Person)
  : Result (list string) :=
  result_bind (map_result (get_canonical_username env) (List.filter (in_roles roles) persons))
    (λ names, Ok (sorted names)).

(** Lines 181-224 of [build_episode_file]: the [Episode] made for an item
    whose page has been read, the arguments of the constructor worked out
    in the order in which they are written. *)
Definition make_episode (env : Env) (item : Item) (show : string)
    (show_details : ShowDetails) (episode_number : EpisodeNumber)
    (episode_number_padded : string) (sponsors : list string) : M Episode :=
  let st := Settings env in
  tags ← match itunes_keywords item with
         | Some keywords => mret (sorted keywords)
         | None => parse_tags env (link item) episode_number show show_details
         end;
  links ← clean GetLinks (get_links env)
            (from_option id (item_description item) (nonempty (content_encoded item)));
  let episode_links := patch_links show links in
  title ← clean GetPlainTitle (get_plain_title env) (item_title item);
  description ← match itunes_subtitle item with
                | Some subtitle => mret subtitle
                | None =>
                    clean GetDescription (get_description env) (item_description item)
                end;
  hosts ← lift (role_usernames env (Host_Roles st) (podcast_persons item));
  guests ← lift (role_usernames env (Guest_Roles st) (podcast_persons item));
  chapters ← get_podcast_chapters env (podcast_chapters item);
  let episode :=
    mkEpisode show (sd_name show_details) episode_number episode_number_padded
      (guid item) title description (pubDate item) tags hosts guests sponsors
      (itunes_duration item) (enclosure_url item) (enclosure_length item)
      chapters None None None None None None
      (sd_jb_url show_details ++ "/" ++ EpisodeNumber_str episode_number)
      (link item) (podcast_value item) episode_links (podcast_transcripts item) in
  mret (if String.eqb show "this-week-in-bitcoin" && bool_decide (hosts = [])
        then set_hosts ["chris"] episode else episode).

(** [build_episode_file(item, show, show_details)] *)
Definition build_episode_file (env : Env) (item : Item) (show : string)
    (show_details : ShowDetails) : M BuildOutcome :=
  let st := Settings env in
  if is_bonus item then
    log WARNING
      (SkippingEpisodeType (from_option EpisodeType_str "" (itunes_episodeType item))
         (item_title item));;
    mret SkippedBonus
  else
    numbers ← lift (episode_numbers (Unicode env) item);
    let episode_number := numbers.1 in
    let episode_number_padded := numbers.2 in
    let output_name := episode_file_name episode_number_padded in
    let output_file := DATA_DIR st // "content" // "show" // show // output_name in
    w ← get_world;
    if negb (Overwrite_Existing st) && path_exists (fs w) output_file then
      log WARNING (SkipSavingNotOverwriting output_file);;
      mret SkippedExists
    else
      r ← try (parse_sponsors env (link item) episode_number show show_details);
      page ← match r with
             | Ok l => mret (Some l)
             | Raise HTTPError =>
                 log ERROR (CouldNotGetEpisodePage (sd_name show_details) episode_number);;
                 mret None
             | Raise MissingSchema => mret (Some [])
             | Raise e => raise e
             end;
      match page with
      | None => mret FailedPage
      | Some sponsors =>
          episode ← make_episode env item show show_details episode_number
                      episode_number_padded sponsors;
          get_picks env (item_description item) episode_number show show_details;;
          build_participants env (podcast_persons item);;
          overwrite ← lift (result_bind (dont_override show_details) (λ names,
                              Ok (if bool_decide (path_name output_file ∈ names)
                                  then false else Overwrite_Existing st)));
          written ← save_file output_file (get_hugo_md_file_content env episode) overwrite;
          mret (Built episode written)
      end.

(* ===================================================================== *)
(** * Run coordinator *)
(* ===================================================================== *)

(** The items for which [main] submits a build task. *)
Definition submitted (st : SettingsT) (items : list Item) : list Item :=
  if LATEST_ONLY st then take (LATEST_ONLY_EP_LIMIT st) items else items.

(** The body of the [with ThreadPoolExecutor()] block of [main].  The pool
    is modelled by running the tasks one after the other, each to its end:
    a task that raises keeps the exception in its future and the tasks after
    it still run, as they do when the block is left. *)
Definition run_show (env : Env) (show : string) (show_config : ShowDetails)
    (items : list Item) : M unit :=
  let st := Settings env in
  futures ← run_tasks
    ((λ item, build_episode_file env item show show_config) <$> submitted st items);
  (if LATEST_ONLY st && bool_decide (LATEST_ONLY_EP_LIMIT st < length items)%nat
   then log DEBUG (LimitingScraping (LATEST_ONLY_EP_LIMIT st)) else mret ());;
  drain futures;;
  save_sponsors env;;
  save_participants env.

(** One iteration of the loop over the shows in [main] (lines 473-508). *)
Definition main_show (env : Env) (show : string) (show_config : ShowDetails) : M unit :=
  response ← http_get env (show_rss show_config);
  platform ← lift (host_platform show_config);
  content ← match platform with
            | Some "fireside" => lift (fix_podcast_namespace env (text response))
            | _ => mret (text response)
            end;
  match Rss_from_xml env content with
  | Raise ValidationError => log ERROR FeedInvalid
  | Raise e => raise e
  | Ok items => run_show env show show_config items
  end.

(** [main()] *)
Definition main (env : Env) : M unit :=
  for_each (shows (CONFIGURATION env)) (λ '(show, show_config), main_show env show show_config).

(** The [if __name__ == "__main__"] block. *)
Definition scraper (env : Env) : M unit :=
  log INFO ScraperStarted;;
  main env;;
  log SUCCESS AllDone.

(** The exit status of the process: [exit(0)] at the end of the block, and
    the interpreter's status 1 when an exception reaches the top. *)
Definition exit_status {A} (r : Result A) : Z :=
  match r with
  | Ok _ => 0
  | Raise _ => 1
  end.

(** The state a run starts from. *)
Definition initial_world (f : FileSystem) : World := mkWorld f [] 0 ∅ ∅.

(** The log of a world, oldest record first. *)
Definition log_of (w : World) : list (Level * LogMsg) :=
  omap (λ e, match e with Log l m => Some (l, m) | Call _ _ => None end)
       (reverse (events w)).

(* ===================================================================== *)
(** * Vocabulary of the statements *)
(* ===================================================================== *)

(** The world after one more event. *)
Definition add_event (e : Event) (w : World) : World :=
  mkWorld (fs w) (e :: events w) (requests w) (SPONSORS w) (PARTICIPANTS w).

(** The world with another file system. *)
Definition with_fs (f : FileSystem) (w : World) : World :=
  mkWorld f (events w) (requests w) (SPONSORS w) (PARTICIPANTS w).

(** [p] can be written: it is not the root or another directory, and no regular file stands
    where one of its parent directories has to be. *)
Definition writable (f : FileSystem) (p : Path) : bool :=
  negb (bool_decide (p = []))
  && negb (bool_decide (p ∈ dirs f))
  && forallb (λ d, negb (is_file f d)) (with_ancestors (parent p)).

(** The file system after [p] is written with [c]: the file holds [c] and
    all the directories above it exist. *)
Definition written (f : FileSystem) (p : Path) (c : FileContent) : FileSystem :=
  mkFS (<[p := c]> (files f)) (list_to_set (with_ancestors (parent p)) ∪ dirs f).

(** ** Concrete inputs for the examples *)

Definition example_settings (overwrite : bool) : SettingsT :=
  mkSettings ["data"] 3 overwrite false 5 ["host"; "co-host"] ["guest"].

Definition example_show : ShowDetails :=
  mkShowDetails "https://feeds.example/lup" "https://lup.example"
    "https://jb.example/show/lup" "LUP" "Linux Unplugged".

Definition example_config : ConfigData :=
  mkConfigData [("lup", example_show)].

(** Tables for runs in which every text is ASCII: they are never asked. *)
Definition no_unicode : UnicodeT :=
  mkUnicode (λ _, O) (λ _, false) (λ _, Raise ValueError) (λ s, s).

(** An environment whose network answers as [net] says and whose parsers
    find nothing. *)
Definition example_env (overwrite : bool) (net : nat → string → Result Response) : Env :=
  mkEnv (example_settings overwrite) example_config net
    (λ _ _ _ _, Ok []) (λ _ _ _, Ok []) (λ t, Some (mkChaptersData t))
    (λ s, Ok s) (λ s, Ok s) (λ s, Ok s) (λ _ _ _ _, Ok [])
    (λ e, Text (title e)) (λ _, Ok []) (λ s, Ok s) no_unicode.

(** A network on which every request succeeds with the same body. *)
Definition net_ok (body : string) : nat → string → Result Response :=
  λ _ _, Ok (mkResponse true body).

(** A network on which every request breaks off in mid-transfer. *)
Definition net_chunked : nat → string → Result Response :=
  λ _ _, Raise ChunkedEncodingError.

Definition sponsors_dir : Path := ["data"; "content"; "sponsors"].
Definition people_dir : Path := ["data"; "content"; "people"].

(** A file system with one file, in its directory. *)
Definition one_file (dir : Path) (file_name : string) (c : FileContent) : FileSystem :=
  mkFS {[dir // file_name := c]} (list_to_set (with_ancestors dir)).

(** The document the flush writes for a sponsor. *)
Definition sponsor_doc (s : Sponsor) : FileContent :=
  dumps (mkPost "" (Sponsor_dump s)).

(** The episode number persisted in the file at [p], if any. *)
Definition persisted_episode (f : FileSystem) (p : Path) : option YamlValue :=
  files f !! p ≫= λ c, metadata (load c) !! "episode".

(** The document persisted at [p], if the path holds a file. *)
Definition persisted (f : FileSystem) (p : Path) : option Post :=
  load <$> files f !! p.

(** A field of the document persisted at [p]. *)
Definition persisted_field (f : FileSystem) (p : Path) (k : string) : option YamlValue :=
  persisted f p ≫= λ d, metadata d !! k.

Definition chris_in_memory : Participant :=
  mkParticipant host "chris" "Chris Fisher"
    (Some "https://chrislas.com") (Some "/images/people/chris.jpg").


(** The registry after the pages of a sequence of episodes have been
    parsed, each page mentioning the sponsor [key] with the next record of
    [ss]. *)
Fixpoint register_all (reg : gmap string Sponsor) (key : string) (ss : list Sponsor)
  : Result (gmap string Sponsor) :=
  match ss with
  | [] => Ok reg
  | s :: r => result_bind (update_SPONSORS reg [(key, s)]) (λ reg', register_all reg' key r)
  end.

(** The greatest number among the records, [-1] when there is none. *)
Definition max_number (ss : list Sponsor) : Z :=
  foldr (λ s m, Z.max (sponsor_number s) m) (-1) ss.

(** The first record of [ss] whose number is [n]. *)
Definition first_with_number (n : Z) (ss : list Sponsor) : option Sponsor :=
  List.find (λ s, Z.eqb (sponsor_number s) n) ss.

(** What line 117 does to the entry of one key. *)
Definition keep_newer (cur : option Sponsor) (s : Sponsor) : option Sponsor :=
  if (from_option sponsor_number (-1) cur <? sponsor_number s)%Z then Some s else cur.

(** The entries the registry can hold: an episode that is present, not zero
    and above [-1]. *)
Definition registrable (s : Sponsor) : Prop :=
  sponsor_episode s = Some (sponsor_number s) ∧ -1 < sponsor_number s.

(** The world after [n] more requests were made and each was logged as a
    transient failure of the chapters fetch. *)
Fixpoint after_retries (u : string) (n : nat) (w : World) : World :=
  match n with
  | O => w
  | S k =>
      after_retries u k
        (add_event (Log WARNING (ChaptersWillRetry u))
           (mkWorld (fs w) (events w) (S (requests w)) (SPONSORS w) (PARTICIPANTS w)))
  end.

Definition example_chapters : ChaptersRef :=
  mkChaptersRef "https://feeds.example/lup/600/chapters.json" "application/json+chapters".

(** The character [c] occurs in [s]. *)
Fixpoint has_char (c : ascii) (s : string) : bool :=
  match s with
  | EmptyString => false
  | String a r => Ascii.eqb a c || has_char c r
  end.

(** The trailing path segment of a link. *)
Definition trailing_segment (l : string) : string := last_item (split "/" l).

(** A feed item with the given title, link, episode type and subtitle, no
    structured episode number, no keywords, one host and no chapters. *)
Definition example_item (t l : string) (ty : option EpisodeType) (sub : option string)
  : Item :=
  mkItem t l "<p>Your hosts talk shop.</p>" None "guid-600" "Sun, 02 Feb 2025" ty sub
    None "01:02:03" "https://media.example/600.mp3" 12345 None
    [mkPerson (Some "host") (Some "cast") None None "Chris Fisher"] None None [].

(** A feed item with the given title, link and subtitle that names
    nobody and carries its keywords. *)
Definition solo_item (t l : string) (sub : option string) : Item :=
  mkItem t l "<p>Your hosts talk shop.</p>" None "guid-600" "Sun, 02 Feb 2025" None sub
    (Some ["linux"]) "01:02:03" "https://media.example/600.mp3" 12345 None [] None None [].

(** An event other than a call of the description cleaner. *)
Definition not_description_call (e : Event) : Prop :=
  match e with
  | Call GetDescription _ => False
  | _ => True
  end.

(** [m] only ever adds events that satisfy [E], and a result it returns
    satisfies [Q]. *)
Definition runs {A} (E : Event → Prop) (m : M A) (Q : A → Prop) : Prop :=
  ∀ w r w', m w = (r, w') →
    (∃ new, events w' = (new ++ events w)%list ∧ Forall E new)
    ∧ (∀ a, r = Ok a → Q a).

(** The exception [drain] raises again: that of the first future that holds
    one. *)
Fixpoint first_raised {A} (futures : list (Result A)) : option Exc :=
  match futures with
  | [] => None
  | Ok _ :: r => first_raised r
  | Raise e :: _ => Some e
  end.


(** The world when the tasks are done and the futures are about to be
    drained. *)
Definition before_drain (env : Env) (items : list Item) (w : World) : World :=
  if LATEST_ONLY (Settings env)
     && bool_decide (LATEST_ONLY_EP_LIMIT (Settings env) < length items)%nat
  then add_event (Log DEBUG (LimitingScraping (LATEST_ONLY_EP_LIMIT (Settings env)))) w
  else w.


(** The path of the episode file (line 165). *)
Definition episode_file (env : Env) (show episode_number_padded : string) : Path :=
  DATA_DIR (Settings env) // "content" // "show" // show
    // episode_file_name episode_number_padded.

(* ===================================================================== *)
(** * Vocabulary of the further properties *)
(* ===================================================================== *)

(** The world after one more request. *)
Definition add_request (w : World) : World :=
  mkWorld (fs w) (events w) (S (requests w)) (SPONSORS w) (PARTICIPANTS w).

(** [m] changes the world only as [R] allows, and a result it returns
    satisfies [Q]. *)
Definition does {A} (R : World → World → Prop) (m : M A) (Q : A → Prop) : Prop :=
  ∀ w r w', m w = (r, w') → R w w' ∧ ∀ a, r = Ok a → Q a.

(** A relation between worlds that every computation keeps which only logs
    and makes requests. *)
Record Quiet (R : World → World → Prop) : Prop := mkQuiet {
  quiet_refl : ∀ w, R w w;
  quiet_trans : ∀ w1 w2 w3, R w1 w2 → R w2 w3 → R w1 w3;
  quiet_event : ∀ w e, R w (add_event e w);
  quiet_request : ∀ w, R w (add_request w);
}.

(** [R] lets files be saved. *)
Definition Saves (R : World → World → Prop) : Prop :=
  ∀ p c overwrite, does R (save_file p c overwrite) (λ _, True).

(** [R] lets the participant registry change. *)
Definition FreeParticipants (R : World → World → Prop) : Prop :=
  ∀ w p, R w (mkWorld (fs w) (events w) (requests w) (SPONSORS w) p).

(** Files, directories and registries are as they were: only the log and
    the request count may differ. *)
Definition only_observed (w w' : World) : Prop :=
  fs w' = fs w ∧ SPONSORS w' = SPONSORS w ∧ PARTICIPANTS w' = PARTICIPANTS w.

(** The items of a dict: no key occurs twice. *)
Definition is_dict {V} (items : list (string * V)) : Prop := NoDup items.*1.

(** The registry after the sponsors of a sequence of pages are merged in,
    page by page (line 117). *)
Fixpoint register_pages (reg : gmap string Sponsor) (pages : list (list (string * Sponsor)))
  : Result (gmap string Sponsor) :=
  match pages with
  | [] => Ok reg
  | page :: r => result_bind (update_SPONSORS reg page) (λ reg', register_pages reg' r)
  end.

(** The number under which a key is registered, [-1] when it is not. *)
Definition registered_number (reg : gmap string Sponsor) (key : string) : Z :=
  from_option sponsor_number (-1) (reg !! key).

(** A network on which every request is answered with an HTTP error. *)
Definition net_http_error : nat → string → Result Response :=
  λ _ _, Ok (mkResponse false "Not Found").

(** A network on which no URL has a scheme. *)
Definition net_missing_schema : nat → string → Result Response :=
  λ _ _, Raise MissingSchema.

(** The world after [n] more requests, nothing else having happened. *)
Fixpoint after_requests (n : nat) (w : World) : World :=
  match n with
  | O => w
  | S k => after_requests k (add_request w)
  end.

(** The sponsor registry is as it was. *)
Definition same_SPONSORS (w w' : World) : Prop := SPONSORS w' = SPONSORS w.


(** The text the builder hands to [get_links] (line 183). *)
Definition links_source (item : Item) : string :=
  from_option id (item_description item) (nonempty (content_encoded item)).

(** An environment in which no request can be made. *)
Definition offline_env : Env :=
  mkEnv (example_settings false) example_config (λ _ _, Raise ConnectionError)
    (λ _ _ _ _, Ok []) (λ _ _ _, Ok []) (λ t, Some (mkChaptersData t))
    (λ s, Ok s) (λ s, Ok s) (λ s, Ok s) (λ _ _ _ _, Ok [])
    (λ e, Text (title e)) (λ _, Ok []) (λ s, Ok s) no_unicode.

(** The exception a run with a show ends with: that of the request for the
    feed of the first show, or the [AttributeError] of line 476. *)
Definition first_show_exception (env : Env) (w : World) (show_config : ShowDetails) : Exc :=
  match requests_get env (requests w) (show_rss show_config) with
  | Ok _ => AttributeError
  | Raise e => e
  end.


(* ===================================================================== *)
(** * Properties *)
(* ===================================================================== *)

(** A closed decidable proposition, decided by evaluation. *)
Ltac by_decide :=
  cbv beta; cbn [fst snd name];
  match goal with
  | |- ?P => apply (bool_decide_unpack P); vm_compute; exact I
  end.

(** ** Stepping through the monad *)

Lemma bind_ok {A B} (m : M A) (f : A → M B) w a w' :
  m w = (Ok a, w') → (m ≫= f) w = f a w'.
Proof. intros H. unfold mbind, M_bind. by rewrite H. Qed.

Lemma bind_raise {A B} (m : M A) (f : A → M B) w e w' :
  m w = (Raise e, w') → (m ≫= f) w = (Raise e, w').
Proof. intros H. unfold mbind, M_bind. by rewrite H. Qed.

Lemma try_run {A} (m : M A) w r w' :
  m w = (r, w') → try m w = (Ok r, w').
Proof. intros H. unfold try. by rewrite H. Qed.

(** ** The file writer *)

Lemma is_file_path_exists f p : is_file f p = true → path_exists f p = true.
Proof. unfold is_file, path_exists. by intros ->. Qed.

Lemma writable_mkdir f p :
  writable f p = true →
  mkdir_parents f (parent p)
  = Ok (mkFS (files f) (list_to_set (with_ancestors (parent p)) ∪ dirs f)).
Proof.
  unfold writable, mkdir_parents. intros [_ Hanc]%andb_true_iff.
  rewrite forallb_forall in Hanc.
  assert (Hno : existsb (is_file f) (with_ancestors (parent p)) = false).
  { apply not_true_is_false. intros [d [Hd Hf]]%existsb_exists.
    specialize (Hanc d Hd). by rewrite Hf in Hanc. }
  assert (Hself : is_file f (parent p) = false).
  { apply not_true_is_false. intros Hf.
    assert (Hin : In (parent p) (with_ancestors (parent p))).
    { unfold with_ancestors. apply in_map_iff. exists (length (parent p)).
      split; [apply firstn_all|]. apply in_seq. lia. }
    specialize (Hanc _ Hin). by rewrite Hf in Hanc. }
  by rewrite Hself, Hno.
Qed.

Lemma not_own_ancestor (p : Path) : p ≠ [] → p ∉ with_ancestors (parent p).
Proof.
  intros Hne Hin. apply list_elem_of_In in Hin.
  unfold with_ancestors in Hin. apply in_map_iff in Hin as [n [Hn _]].
  assert (Hlen : (length p ≤ length (parent p))%nat).
  { rewrite <- Hn at 1. rewrite length_take. lia. }
  destruct (exists_last Hne) as [q [x ->]].
  unfold parent in Hlen. rewrite removelast_last, length_app in Hlen. simpl in Hlen. lia.
Qed.

Lemma writable_write f p c :
  writable f p = true →
  write_file (mkFS (files f) (list_to_set (with_ancestors (parent p)) ∪ dirs f)) p c
  = Ok (written f p c).
Proof.
  unfold writable, write_file. intros [[Hne Hd]%andb_true_iff _]%andb_true_iff.
  apply negb_true_iff, bool_decide_eq_false in Hne, Hd. cbn [dirs files].
  rewrite bool_decide_eq_false_2; [done|].
  intros [Hin | Hin]%elem_of_union; [|done].
  apply elem_of_list_to_set in Hin. by apply not_own_ancestor in Hin.
Qed.

(** A call that writes: the file is (over)written, its parents exist, the
    write is logged, the call returns [True]. *)
Lemma save_file_writes p c overwrite w :
  overwrite = true ∨ path_exists (fs w) p = false →
  writable (fs w) p = true →
  save_file p c overwrite w
  = (Ok true, add_event (Log INFO (SavedFile p)) (with_fs (written (fs w) p c) w)).
Proof.
  intros Hgo Hw. unfold save_file.
  rewrite (bind_ok get_world _ w w w) by done.
  assert (negb overwrite && path_exists (fs w) p = false) as ->.
  { destruct Hgo as [-> | ->]; [done | by rewrite andb_false_r]. }
  rewrite (writable_mkdir _ _ Hw).
  unfold mbind, M_bind, lift, set_fs, log, emit, mret, M_ret; cbn [fs].
  by rewrite (writable_write _ _ c Hw).
Qed.

(** A call that skips: nothing changes but the log, the call returns
    [False]. *)
Lemma save_file_skips p c w :
  path_exists (fs w) p = true →
  save_file p c false w = (Ok false, add_event (Log WARNING (SkipSavingExists p)) w).
Proof.
  intros Hex. unfold save_file.
  rewrite (bind_ok get_world _ w w w) by done.
  by rewrite Hex.
Qed.

Lemma path_exists_written f p c : path_exists (written f p c) p = true.
Proof.
  unfold path_exists, written; simpl.
  rewrite lookup_insert_eq. rewrite bool_decide_eq_true_2; [done | by eexists].
Qed.

(** C7.  Calling the writer twice with [overwrite=False] on a path that
    does not exist yet (and can be created) produces the file once: the
    first call creates the missing parent directories, writes the content,
    logs the write and returns [True], touching no other file; the second
    call changes nothing, logs a skip and returns [False].  And on any path
    that already exists, a call with [overwrite=False] changes nothing but
    the log and returns [False]. *)
Theorem save_file_twice_writes_once (p : Path) (c : FileContent) (w : World) :
  path_exists (fs w) p = false →
  writable (fs w) p = true →
  let w1 := add_event (Log INFO (SavedFile p)) (with_fs (written (fs w) p c) w) in
  save_file p c false w = (Ok true, w1)
  ∧ files (fs w1) !! p = Some c
  ∧ (∀ q, q ≠ p → files (fs w1) !! q = files (fs w) !! q)
  ∧ (∀ d, d ∈ with_ancestors (parent p) → d ∈ dirs (fs w1))
  ∧ save_file p c false w1 = (Ok false, add_event (Log WARNING (SkipSavingExists p)) w1)
  ∧ (∀ p0 c0 w0, path_exists (fs w0) p0 = true →
       save_file p0 c0 false w0
       = (Ok false, add_event (Log WARNING (SkipSavingExists p0)) w0)).
Proof.
  intros Hnew Hw w1. repeat split.
  - apply save_file_writes; auto.
  - subst w1. cbn [fs add_event with_fs written files]. apply lookup_insert_eq.
  - intros q Hq. subst w1. cbn [fs add_event with_fs written files].
    by apply lookup_insert_ne.
  - intros d Hd. subst w1. cbn [fs add_event with_fs written dirs].
    apply elem_of_union_l. by apply elem_of_list_to_set.
  - apply save_file_skips. subst w1. cbn [fs add_event with_fs].
    apply path_exists_written.
  - intros p0 c0 w0. apply save_file_skips.
Qed.

Lemma save_file_twice_writes_once_witness :
  let p := ["data"; "content"; "sponsors"; "linode.com-lup.md"] in
  let w := initial_world (mkFS ∅ ∅) in
  (save_file p (Text "linode") false w).1 = Ok true.
Proof.
  intros p w.
  destruct (save_file_twice_writes_once p (Text "linode") w) as [H _].
  - vm_compute. reflexivity.
  - vm_compute. reflexivity.
  - rewrite H. reflexivity.
Defined.

(** ** The registry flush *)

(** C1.  The configuration has no [data_dont_override], so the exemption
    test of line 431 raises on every file that exists.  With overwriting
    on, a sponsor whose file holds episode 1 and whose registry entry holds
    episode 2 is not written: the flush raises [AttributeError] before the
    file is read, the file keeps episode 1, nothing is logged by the flush,
    and [save_sponsors] ends with the exception at its drain. *)
Theorem sponsor_flush_newer_raises :
  let env := example_env true (net_ok "") in
  let file_path := sponsors_dir // "linode.com-lup.md" in
  let candidate := mkSponsor "linode" (Some 2) in
  let w := mkWorld
             (one_file sponsors_dir "linode.com-lup.md" (sponsor_doc (mkSponsor "linode" (Some 1))))
             [] 0 {["linode.com-lup.md" := candidate]} ∅ in
  persisted_episode (fs w) file_path = Some (YInt 1)
  ∧ process_and_serialize_object env "linode.com-lup.md" (ObjSponsor candidate)
      sponsors_dir true w
    = (Raise AttributeError, w)
  ∧ (save_sponsors env w).1 = Raise AttributeError
  ∧ fs (save_sponsors env w).2 = fs w
  ∧ log_of (save_sponsors env w).2 = [(INFO, SavingSponsors)].
Proof. vm_compute. repeat split. Qed.


(** ** The sponsor registry *)

Lemma sponsor_number_registrable s :
  -1 < sponsor_number s → registrable s.
Proof.
  unfold registrable, sponsor_number. destruct (sponsor_episode s) as [e|]; [|lia].
  destruct (Z.eqb_spec e 0); [lia | done].
Qed.

Lemma keep_newer_registrable cur s :
  (∀ c, cur = Some c → registrable c) →
  ∀ c, keep_newer cur s = Some c → registrable c.
Proof.
  intros Hcur c. unfold keep_newer.
  destruct (Z.ltb_spec (from_option sponsor_number (-1) cur) (sponsor_number s)) as [Hlt|Hge].
  - intros [= <-]. apply sponsor_number_registrable.
    destruct cur as [c'|]; simpl in Hlt; [|lia].
    destruct (Hcur c' eq_refl). lia.
  - apply Hcur.
Qed.

(** One update of one key: no exception, the entry of the key follows
    [keep_newer], the other entries stay. *)
Lemma update_one (reg : gmap string Sponsor) key s :
  (∀ c, reg !! key = Some c → registrable c) →
  ∃ reg', update_SPONSORS reg [(key, s)] = Ok reg'
    ∧ reg' !! key = keep_newer (reg !! key) s
    ∧ ∀ k, k ≠ key → reg' !! k = reg !! k.
Proof.
  intros Hreg. unfold update_SPONSORS, newer_sponsors, is_newer, registered_episode, keep_newer.
  destruct (reg !! key) as [c|] eqn:Hc.
  - destruct (Hreg c eq_refl) as [-> _]. cbn [result_bind from_option].
    destruct (sponsor_number c <? sponsor_number s)%Z; eexists; (split; [reflexivity|]).
    + unfold dict_update; simpl. split; [apply lookup_insert_eq|].
      intros k Hk. by apply lookup_insert_ne.
    + unfold dict_update; simpl. by split.
  - cbn [result_bind from_option].
    destruct (-1 <? sponsor_number s)%Z; eexists; (split; [reflexivity|]).
    + unfold dict_update; simpl. split; [apply lookup_insert_eq|].
      intros k Hk. by apply lookup_insert_ne.
    + unfold dict_update; simpl. by split.
Qed.

Lemma register_all_fold (ss : list Sponsor) : ∀ (reg : gmap string Sponsor) key,
  (∀ c, reg !! key = Some c → registrable c) →
  ∃ reg', register_all reg key ss = Ok reg'
    ∧ reg' !! key = foldl keep_newer (reg !! key) ss
    ∧ ∀ k, k ≠ key → reg' !! k = reg !! k.
Proof.
  induction ss as [|s r IH]; intros reg key Hreg.
  - exists reg. by repeat split.
  - destruct (update_one reg key s Hreg) as (reg1 & Hup & Hkey & Hother).
    destruct (IH reg1 key) as (reg' & Hall & Hkey' & Hother').
    { rewrite Hkey. by apply keep_newer_registrable. }
    exists reg'. cbn [register_all]. rewrite Hup. cbn [result_bind].
    split; [done|]. split.
    + by rewrite Hkey', Hkey.
    + intros k Hk. by rewrite Hother', Hother.
Qed.

Lemma foldl_keep_newer (ss : list Sponsor) : ∀ cur,
  (-1 ≤ from_option sponsor_number (-1) cur)%Z →
  foldl keep_newer cur ss
  = if (from_option sponsor_number (-1) cur <? max_number ss)%Z
    then first_with_number (max_number ss) ss else cur.
Proof.
  induction ss as [|s r IH]; intros cur Hcur.
  - cbn. destruct (Z.ltb_spec (from_option sponsor_number (-1) cur) (-1)); [lia | done].
  - cbn [foldl]. rewrite IH.
    2:{ unfold keep_newer.
        destruct (Z.ltb_spec (from_option sponsor_number (-1) cur) (sponsor_number s));
          cbn [from_option]; lia. }
    unfold keep_newer, first_with_number.
    cbn [max_number foldr List.find]. fold (max_number r).
    set (c := from_option sponsor_number (-1) cur) in *.
    destruct (Z.ltb_spec c (sponsor_number s)) as [H1|H1]; cbn [from_option]; fold c;
      destruct (Z.ltb_spec (sponsor_number s) (max_number r)) as [H2|H2];
      destruct (Z.ltb_spec c (max_number r)) as [H3|H3];
      destruct (Z.ltb_spec c (Z.max (sponsor_number s) (max_number r))) as [H4|H4];
      destruct (Z.eqb_spec (sponsor_number s) (Z.max (sponsor_number s) (max_number r)))
        as [H5|H5];
      try lia; try done;
      try (replace (Z.max (sponsor_number s) (max_number r)) with (max_number r) by lia; done).
Qed.

Lemma max_number_perm ss ss' : ss ≡ₚ ss' → max_number ss = max_number ss'.
Proof.
  induction 1 as [|s l l' _ IH|s t l|l l' l'' _ IH1 _ IH2].
  - done.
  - cbn [max_number foldr]. fold (max_number l) (max_number l'). by rewrite IH.
  - cbn [max_number foldr]. fold (max_number l). lia.
  - congruence.
Qed.

Lemma max_number_attained ss :
  -1 < max_number ss →
  ∃ s, first_with_number (max_number ss) ss = Some s ∧ s ∈ ss
       ∧ sponsor_number s = max_number ss.
Proof.
  intros Hmax. unfold first_with_number.
  destruct (List.find _ ss) as [s|] eqn:Hfind.
  - apply find_some in Hfind as [Hin Heq]. exists s.
    apply list_elem_of_In in Hin. apply Z.eqb_eq in Heq. done.
  - exfalso. assert (Hall := find_none _ _ Hfind). clear Hfind.
    induction ss as [|s r IH]; cbn [max_number foldr] in *; [lia|].
    fold (max_number r) in *.
    destruct (Z.max_spec (sponsor_number s) (max_number r)) as [[Hlt Hm]|[Hle Hm]].
    + apply IH; [lia|]. intros x Hx. specialize (Hall x (or_intror Hx)).
      by rewrite Hm in Hall.
    + specialize (Hall s (or_introl eq_refl)). rewrite Hm in Hall.
      by rewrite Z.eqb_refl in Hall.
Qed.

Lemma dict_update_other {V} (l : list (string * V)) : ∀ (d : gmap string V) k,
  k ∉ l.*1 → dict_update d l !! k = d !! k.
Proof.
  induction l as [|[k0 v0] r IH]; intros d k Hk; [done|].
  cbn in Hk. apply not_elem_of_cons in Hk as [Hne Hr].
  unfold dict_update in *. cbn [foldl fst snd]. rewrite IH by done.
  by apply lookup_insert_ne.
Qed.

Lemma dict_update_entry {V} (l : list (string * V)) : ∀ (d : gmap string V) k v,
  NoDup l.*1 → (k, v) ∈ l → dict_update d l !! k = Some v.
Proof.
  induction l as [|[k0 v0] r IH]; intros d k v Hnd Hin; [by apply elem_of_nil in Hin|].
  cbn in Hnd. apply NoDup_cons in Hnd as [Hk0 Hnd].
  unfold dict_update in *. cbn [foldl fst snd].
  apply elem_of_cons in Hin as [[= -> ->] | Hin].
  - fold (dict_update (<[k0:=v0]> d) r). rewrite dict_update_other by done.
    apply lookup_insert_eq.
  - by apply IH.
Qed.

(** The comprehension of line 117 keeps the entries whose number is above
    the registered one; it cannot raise on a registry of registrable
    records. *)
Lemma newer_sponsors_filter (reg : gmap string Sponsor) (page : list (string * Sponsor)) :
  (∀ k c, reg !! k = Some c → registrable c) →
  newer_sponsors reg page
  = Ok (List.filter
          (λ kv, (from_option sponsor_number (-1) (reg !! kv.1) <? sponsor_number kv.2)%Z)
          page).
Proof.
  intros Hreg. induction page as [|[k s] r IH]; [done|].
  cbn [newer_sponsors List.filter fst snd]. rewrite IH. unfold is_newer, registered_episode.
  destruct (reg !! k) as [c|] eqn:Hc; cbn [from_option result_bind].
  - destruct (Hreg k c Hc) as [-> _]. cbn [result_bind].
    by destruct (sponsor_number c <? sponsor_number s)%Z.
  - by destruct (-1 <? sponsor_number s)%Z.
Qed.

(** One page with several sponsors acts on each key as an update of that
    key alone does. *)
Lemma update_page (reg : gmap string Sponsor) (page : list (string * Sponsor)) :
  (∀ k c, reg !! k = Some c → registrable c) →
  NoDup page.*1 →
  ∃ reg', update_SPONSORS reg page = Ok reg'
    ∧ (∀ k s, (k, s) ∈ page → reg' !! k = keep_newer (reg !! k) s)
    ∧ (∀ k, k ∉ page.*1 → reg' !! k = reg !! k).
Proof.
  intros Hreg Hnd. unfold update_SPONSORS. rewrite (newer_sponsors_filter _ _ Hreg).
  cbn [result_bind]. eexists. split; [reflexivity|].
  set (newer := λ kv : string * Sponsor,
         (from_option sponsor_number (-1) (reg !! kv.1) <? sponsor_number kv.2)%Z).
  assert (Hsub : ∀ k, k ∈ (List.filter newer page).*1 → k ∈ page.*1).
  { intros k [[k' s'] [-> Hin]]%list_elem_of_fmap.
    apply list_elem_of_In, filter_In in Hin as [Hin _].
    apply list_elem_of_fmap. exists (k', s'). split; [done|]. by apply list_elem_of_In. }
  assert (Hnd' : NoDup (List.filter newer page).*1).
  { clear Hsub. induction page as [|[k s] r IH]; [constructor|].
    cbn in Hnd. apply NoDup_cons in Hnd as [Hk Hr]. cbn [List.filter].
    destruct (newer (k, s)); [|by apply IH].
    cbn. apply NoDup_cons. split; [|by apply IH].
    intros [[k' s'] [Heq Hin]]%list_elem_of_fmap. cbn in Heq. subst k'.
    apply list_elem_of_In, filter_In in Hin as [Hin _].
    apply Hk, list_elem_of_fmap. exists (k, s'). split; [done|]. by apply list_elem_of_In. }
  split.
  - intros k s Hin. unfold keep_newer.
    destruct (from_option sponsor_number (-1) (reg !! k) <? sponsor_number s)%Z eqn:Hnew.
    + apply dict_update_entry; [done|].
      apply list_elem_of_In, filter_In. split; [by apply list_elem_of_In | done].
    + rewrite dict_update_other; [done|].
      intros [[k' s'] [Heq Hin']]%list_elem_of_fmap. cbn in Heq. subst k'.
      apply list_elem_of_In, filter_In in Hin' as [Hin' Hnew'].
      assert (s' = s) as ->.
      { apply list_elem_of_In in Hin'.
        clear - Hnd Hin Hin'. induction page as [|[k0 s0] r IH]; [by apply elem_of_nil in Hin|].
        cbn in Hnd. apply NoDup_cons in Hnd as [Hk0 Hr].
        apply elem_of_cons in Hin as [[= -> ->]|Hin];
          apply elem_of_cons in Hin' as [[= ->]|Hin']; try done.
        - exfalso. apply Hk0, list_elem_of_fmap. by exists (k0, s').
        - subst. exfalso. apply Hk0, list_elem_of_fmap. by exists (k0, s).
        - by apply IH. }
      unfold newer in Hnew'. cbn in Hnew'. congruence.
  - intros k Hk. apply dict_update_other. intros Hin. by apply Hk, Hsub.
Qed.

Lemma sponsor_number_episode s e :
  sponsor_episode s = Some e → e ≠ 0 → sponsor_number s = e.
Proof.
  unfold sponsor_number. intros -> He. by destruct (Z.eqb_spec e 0).
Qed.

Lemma registered_after (reg : gmap string Sponsor) key ss :
  reg !! key = None →
  ∃ reg', register_all reg key ss = Ok reg'
    ∧ (∀ k, k ≠ key → reg' !! k = reg !! k)
    ∧ reg' !! key
      = if (-1 <? max_number ss)%Z then first_with_number (max_number ss) ss else None.
Proof.
  intros Hnone.
  destruct (register_all_fold ss reg key) as (reg' & Hall & Hkey & Hother).
  { rewrite Hnone. by intros c. }
  exists reg'. split; [done|]. split; [done|].
  rewrite Hkey, Hnone. by rewrite foldl_keep_newer.
Qed.

(** C2 (amended).  A sequence of updates of one key that is not registered
    yet never raises and leaves the other keys alone.  The number of a
    record being its episode, or [-1] when the episode is missing or zero:
    if the greatest number is above [-1], the registry afterwards holds the
    first record of the sequence with the greatest number, and its episode
    is that number; otherwise the key stays unregistered.  The same updates
    in another order leave a record with the same episode, and the same
    registry whenever records with equal numbers are equal. *)
Theorem sponsor_updates_keep_highest (reg : gmap string Sponsor) (key : string)
    (ss : list Sponsor) :
  reg !! key = None →
  ∃ reg',
    register_all reg key ss = Ok reg'
    ∧ (∀ k, k ≠ key → reg' !! k = reg !! k)
    ∧ reg' !! key
      = (if (-1 <? max_number ss)%Z then first_with_number (max_number ss) ss else None)
    ∧ (-1 < max_number ss →
       ∃ s, reg' !! key = Some s ∧ s ∈ ss ∧ sponsor_episode s = Some (max_number ss))
    ∧ ∀ ss', ss ≡ₚ ss' →
        ∃ reg'',
          register_all reg key ss' = Ok reg''
          ∧ sponsor_episode <$> reg'' !! key = sponsor_episode <$> reg' !! key
          ∧ ((∀ s1 s2, s1 ∈ ss → s2 ∈ ss → sponsor_number s1 = sponsor_number s2 → s1 = s2)
             → reg'' = reg').
Proof.
  intros Hnone.
  destruct (registered_after reg key ss Hnone) as (reg' & Hall & Hother & Hkey).
  exists reg'. split; [done|]. split; [done|]. split; [done|]. split.
  - intros Hmax. destruct (max_number_attained ss Hmax) as (s & Hfirst & Hin & Hnum).
    exists s. rewrite Hkey. destruct (Z.ltb_spec (-1) (max_number ss)); [|lia].
    split; [done|]. split; [done|].
    destruct (sponsor_number_registrable s) as [-> _]; [lia | by rewrite Hnum].
  - intros ss' Hperm.
    destruct (registered_after reg key ss' Hnone) as (reg'' & Hall' & Hother' & Hkey').
    exists reg''. split; [done|].
    rewrite <- (max_number_perm _ _ Hperm) in Hkey'.
    destruct (Z.ltb_spec (-1) (max_number ss)) as [Hmax|Hmax].
    + destruct (max_number_attained ss Hmax) as (s & Hfirst & Hin & Hnum).
      assert (Hmax' : -1 < max_number ss') by by rewrite <- (max_number_perm _ _ Hperm).
      destruct (max_number_attained ss' Hmax') as (s' & Hfirst' & Hin' & Hnum').
      rewrite <- (max_number_perm _ _ Hperm) in Hfirst', Hnum'.
      rewrite Hkey, Hkey', Hfirst, Hfirst'. split.
      * cbn. destruct (sponsor_number_registrable s) as [-> _]; [lia|].
        destruct (sponsor_number_registrable s') as [-> _]; [lia|]. congruence.
      * intros Hinj. assert (s' = s) as Hs.
        { apply Hinj; [by rewrite Hperm | done | congruence]. }
        apply map_eq. intros k. destruct (decide (k = key)) as [->|Hk].
        -- by rewrite Hkey, Hkey', Hfirst, Hfirst', Hs.
        -- by rewrite Hother, Hother'.
    + rewrite Hkey, Hkey'. split; [done|]. intros _.
      apply map_eq. intros k. destruct (decide (k = key)) as [->|Hk].
      * by rewrite Hkey, Hkey'.
      * by rewrite Hother, Hother'.
Qed.

Lemma sponsor_updates_keep_highest_witness :
  let ss := [mkSponsor "linode" (Some 3); mkSponsor "linode" (Some 12);
             mkSponsor "linode" (Some 7)] in
  ∃ reg' : gmap string Sponsor,
    register_all ∅ "linode.com-lup.md" ss = Ok reg'
    ∧ reg' !! "linode.com-lup.md" = Some (mkSponsor "linode" (Some 12)).
Proof.
  intros ss.
  destruct (sponsor_updates_keep_highest ∅ "linode.com-lup.md" ss)
    as (reg' & Hall & _ & Hkey & _).
  - vm_compute. reflexivity.
  - exists reg'. split; [exact Hall | exact Hkey].
Defined.

(** C2 as stated fails on a tie: two different records of the same key with
    the same episode number leave different registries in the two orders,
    the first seen staying registered. *)
Lemma sponsor_updates_tie_keeps_first :
  let key := "linode.com-lup.md" in
  let a := mkSponsor "linode" (Some 5) in
  let b := mkSponsor "akamai" (Some 5) in
  result_bind (register_all ∅ key [a; b]) (λ reg, Ok (reg !! key)) = Ok (Some a)
  ∧ result_bind (register_all ∅ key [b; a]) (λ reg, Ok (reg !! key)) = Ok (Some b)
  ∧ [a; b] ≡ₚ [b; a]
  ∧ register_all ∅ key [a; b] ≠ register_all ∅ key [b; a].
Proof.
  intros key a b.
  assert (H1 : result_bind (register_all ∅ key [a; b]) (λ reg, Ok (reg !! key)) = Ok (Some a))
    by (vm_compute; reflexivity).
  assert (H2 : result_bind (register_all ∅ key [b; a]) (λ reg, Ok (reg !! key)) = Ok (Some b))
    by (vm_compute; reflexivity).
  split; [done|]. split; [done|]. split; [apply perm_swap|].
  intros Heq. rewrite Heq, H2 in H1. discriminate H1.
Qed.

(** ** The chapters fetch *)

(** Attempts that all break off in mid-transfer use up the retry count:
    each is logged as a warning, no response is ever assigned. *)
Lemma chapters_loop_all_transient env c n : ∀ w,
  (∀ i, requests_get env i (url c) = Raise ChunkedEncodingError) →
  chapters_loop env (Some c) n None w = (Ok (Exhausted None), after_retries (url c) n w).
Proof.
  induction n as [|k IH]; intros w Hnet; [done|].
  cbn [chapters_loop after_retries].
  rewrite (bind_ok (try (http_get env (url c))) _ w (Raise ChunkedEncodingError)
             (mkWorld (fs w) (events w) (S (requests w)) (SPONSORS w) (PARTICIPANTS w))).
  2:{ apply try_run. unfold http_get. by rewrite Hnet. }
  rewrite (bind_ok (log WARNING _) _ _ ()
             (add_event (Log WARNING (ChaptersWillRetry (url c)))
                (mkWorld (fs w) (events w) (S (requests w)) (SPONSORS w) (PARTICIPANTS w))))
    by done.
  by apply IH.
Qed.

(** When every attempt fails in that way the function logs the error and
    then raises: [response] is still [None] when its [json()] is called. *)
Lemma chapters_all_transient_raises env c w :
  (∀ i, requests_get env i (url c) = Raise ChunkedEncodingError) →
  get_podcast_chapters env (Some c) w
  = (Raise AttributeError,
     add_event (Log ERROR (UnableToRetrieveChapters (url c)))
       (after_retries (url c) (Retry_Count (Settings env)) w)).
Proof.
  intros Hnet. unfold get_podcast_chapters.
  erewrite bind_ok; [|by apply chapters_loop_all_transient].
  reflexivity.
Qed.

(** An HTTP error response yields no chapters at once: one request, no
    retry, nothing logged. *)
Lemma chapters_http_error env c w resp k :
  Retry_Count (Settings env) = S k →
  requests_get env (requests w) (url c) = Ok resp →
  status_ok resp = false →
  get_podcast_chapters env (Some c) w
  = (Ok None, mkWorld (fs w) (events w) (S (requests w)) (SPONSORS w) (PARTICIPANTS w)).
Proof.
  intros Hn Hget Hst. unfold get_podcast_chapters. rewrite Hn. cbn [chapters_loop].
  erewrite bind_ok.
  2:{ erewrite bind_ok; [|apply try_run; unfold http_get; by rewrite Hget].
      cbn beta iota. by rewrite Hst. }
  reflexivity.
Qed.

(** A body that fails validation yields no chapters, with a warning. *)
Lemma chapters_invalid_body env c w resp k :
  Retry_Count (Settings env) = S k →
  requests_get env (requests w) (url c) = Ok resp →
  status_ok resp = true →
  text resp ≠ "" →
  Chapters_model_validate_json env (text resp) = None →
  get_podcast_chapters env (Some c) w
  = (Ok None,
     add_event (Log WARNING (InvalidChaptersJSON (url c)))
       (mkWorld (fs w) (events w) (S (requests w)) (SPONSORS w) (PARTICIPANTS w))).
Proof.
  intros Hn Hget Hst Htext Hval. unfold get_podcast_chapters. rewrite Hn.
  cbn [chapters_loop].
  erewrite bind_ok.
  2:{ erewrite bind_ok; [|apply try_run; unfold http_get; by rewrite Hget].
      cbn beta iota. rewrite Hst. cbn [negb].
      apply String.eqb_neq in Htext. rewrite Htext, Hval.
      by erewrite bind_ok. }
  reflexivity.
Qed.

(** A valid body is returned as the chapters of the episode. *)
Lemma chapters_valid_body env c w resp k ch :
  Retry_Count (Settings env) = S k →
  requests_get env (requests w) (url c) = Ok resp →
  status_ok resp = true →
  text resp ≠ "" →
  Chapters_model_validate_json env (text resp) = Some ch →
  get_podcast_chapters env (Some c) w
  = (Ok (Some ch),
     mkWorld (fs w) (events w) (S (requests w)) (SPONSORS w) (PARTICIPANTS w)).
Proof.
  intros Hn Hget Hst Htext Hval. unfold get_podcast_chapters. rewrite Hn.
  cbn [chapters_loop].
  erewrite bind_ok.
  2:{ erewrite bind_ok; [|apply try_run; unfold http_get; by rewrite Hget].
      cbn beta iota. rewrite Hst. cbn [negb].
      apply String.eqb_neq in Htext. by rewrite Htext, Hval. }
  unfold chapters_of_response. apply String.eqb_neq in Htext. by rewrite Htext, Hval.
Qed.

Lemma requests_after_retries u n : ∀ w,
  requests (after_retries u n w) = (requests w + n)%nat.
Proof.
  induction n as [|k IH]; intros w; cbn [after_retries]; [lia|].
  rewrite IH. cbn [add_event requests]. lia.
Qed.

(** Transient failures are retried: after [k] of them, [k] below the
    number of attempts left, a valid body is still fetched. *)
Lemma chapters_loop_retried env c resp ch :
  status_ok resp = true →
  text resp ≠ "" →
  Chapters_model_validate_json env (text resp) = Some ch →
  ∀ k n w response,
    (k < n)%nat →
    (∀ i, (i < k)%nat →
          requests_get env (requests w + i) (url c) = Raise ChunkedEncodingError) →
    requests_get env (requests w + k) (url c) = Ok resp →
    chapters_loop env (Some c) n response w
    = (Ok (Broke (Some resp)),
       let w' := after_retries (url c) k w in
       mkWorld (fs w') (events w') (S (requests w')) (SPONSORS w') (PARTICIPANTS w')).
Proof.
  intros Hst Htext Hval. apply String.eqb_neq in Htext.
  induction k as [|k IH]; intros n w response Hk Hfail Hget;
    (destruct n as [|n]; [lia|]); cbn [chapters_loop after_retries].
  - erewrite bind_ok.
    2:{ apply try_run. unfold http_get. rewrite Nat.add_0_r in Hget. by rewrite Hget. }
    cbn beta iota. rewrite Hst. cbn [negb]. by rewrite Htext, Hval.
  - erewrite bind_ok.
    2:{ apply try_run. unfold http_get.
        pose proof (Hfail 0%nat ltac:(lia)) as H0. rewrite Nat.add_0_r in H0.
        by rewrite H0. }
    cbn beta iota. erewrite bind_ok; [|done].
    apply IH; [lia | |].
    + intros i Hi. cbn [add_event requests].
      replace (S (requests w) + i)%nat with (requests w + S i)%nat by lia.
      apply Hfail. lia.
    + cbn [add_event requests].
      by replace (S (requests w) + k)%nat with (requests w + S k)%nat by lia.
Qed.

Lemma chapters_retried_then_valid env c k w resp ch :
  (k < Retry_Count (Settings env))%nat →
  (∀ i, (i < k)%nat →
        requests_get env (requests w + i) (url c) = Raise ChunkedEncodingError) →
  requests_get env (requests w + k) (url c) = Ok resp →
  status_ok resp = true →
  text resp ≠ "" →
  Chapters_model_validate_json env (text resp) = Some ch →
  get_podcast_chapters env (Some c) w
  = (Ok (Some ch),
     let w' := after_retries (url c) k w in
     mkWorld (fs w') (events w') (S (requests w')) (SPONSORS w') (PARTICIPANTS w')).
Proof.
  intros Hk Hfail Hget Hst Htext Hval. unfold get_podcast_chapters.
  erewrite bind_ok; [|by eapply chapters_loop_retried].
  unfold chapters_of_response. apply String.eqb_neq in Htext. by rewrite Htext, Hval.
Qed.

(** C4.  On a chapters URL whose every attempt raises the transient
    transport error, with a retry count of 3: three requests are made and
    logged as retried, the error is logged, and then the call raises
    [AttributeError] instead of returning the no-chapters result. *)
Theorem chapters_retry_exhaustion_raises :
  let env := example_env false net_chunked in
  let u := url example_chapters in
  let r := get_podcast_chapters env (Some example_chapters) (initial_world (mkFS ∅ ∅)) in
  r.1 = Raise AttributeError
  ∧ requests r.2 = 3%nat
  ∧ log_of r.2 = [(WARNING, ChaptersWillRetry u); (WARNING, ChaptersWillRetry u);
                  (WARNING, ChaptersWillRetry u); (ERROR, UnableToRetrieveChapters u)].
Proof.
  intros env u r. subst r.
  rewrite (chapters_all_transient_raises env example_chapters) by done.
  vm_compute. done.
Qed.

(** ** Canonical usernames *)

(** C9.  [get_canonical_username] returns for no person: the generator
    reads [CONFIGURATION.usernames_map], an attribute that [ConfigData] does
    not declare, before any alias is looked at and before the slug is
    worked out, so every call raises [AttributeError], whatever the
    configuration and the name. *)
Theorem canonical_username_raises (env : Env) (person : Person) :
  get_canonical_username env person = Raise AttributeError.
Proof. unfold get_canonical_username, usernames_map, undeclared. done. Qed.

(** ** Episode numbering *)

Lemma digit_char c (d : Decimal.uint) :
  is_digit c = true → ∃ d', uint_of_char c (Some d) = Some d'.
Proof.
  destruct c as [[] [] [] [] [] [] [] []]; try discriminate; intros _; eexists; reflexivity.
Qed.

Lemma all_digits_uint s :
  all_digits s = true → ∃ d, NilEmpty.uint_of_string s = Some d.
Proof.
  induction s as [|c r IH]; cbn [all_digits NilEmpty.uint_of_string].
  - by eexists.
  - intros [Hc Hr]%andb_true_iff. destruct (IH Hr) as [d ->]. by apply digit_char.
Qed.

(** A run of ASCII digits converts to a number that is not negative. *)
Lemma decimal_int s :
  is_decimal s = true → ∃ n, int_of_digits s = Ok n ∧ (0 ≤ n)%Z.
Proof.
  destruct s as [|c r]; [discriminate|]. unfold is_decimal, int_of_digits.
  intros [d ->]%all_digits_uint. eexists. split; [reflexivity | lia].
Qed.

Lemma digit_is_ascii c : is_digit c = true → is_ascii_char c = true.
Proof. by destruct c as [[] [] [] [] [] [] [] []]. Qed.

Lemma all_digits_ascii s : all_digits s = true → is_ascii s = true.
Proof.
  induction s as [|c r IH]; [done|]. cbn [all_digits is_ascii].
  intros [Hc Hr]%andb_true_iff. by rewrite (digit_is_ascii c Hc), IH.
Qed.

Lemma decimal_ascii s : is_decimal s = true → is_ascii s = true.
Proof. destruct s; [done|]. apply all_digits_ascii. Qed.

(** On a run of ASCII digits the Unicode tables are not asked. *)
Lemma decimal_isnumeric U s : is_decimal s = true → isnumeric U s = true.
Proof. intros H. unfold isnumeric. by rewrite (decimal_ascii s H). Qed.

Lemma decimal_int_of_str U s : is_decimal s = true → int_of_str U s = int_of_digits s.
Proof. intros H. unfold int_of_str. by rewrite H. Qed.

Lemma uint_of_zeros k s :
  N.of_uint <$> NilEmpty.uint_of_string (zeros k ++ s)
  = N.of_uint <$> NilEmpty.uint_of_string s.
Proof.
  induction k as [|k IH]; [done|].
  change (zeros (S k) ++ s) with (String "0" (zeros k ++ s)).
  cbn [NilEmpty.uint_of_string]. rewrite <- IH.
  by destruct (NilEmpty.uint_of_string (zeros k ++ s)).
Qed.

Lemma uint_of_str_of_nonneg n :
  (0 ≤ n)%Z →
  N.of_uint <$> NilEmpty.uint_of_string (str_of_nonneg n) = Some (Z.to_N n).
Proof.
  intros Hn. unfold str_of_nonneg, NilZero.string_of_uint.
  destruct (N.to_uint (Z.to_N n)) eqn:Hd.
  1:{ cbn. rewrite <- (DecimalN.Unsigned.of_to (Z.to_N n)), Hd. done. }
  all: rewrite NilEmpty.usu; cbn [fmap option_fmap option_map]; f_equal;
    rewrite <- Hd; apply DecimalN.Unsigned.of_to.
Qed.

Lemma str_of_nonneg_not_empty n : str_of_nonneg n ≠ "".
Proof.
  unfold str_of_nonneg, NilZero.string_of_uint.
  by destruct (N.to_uint (Z.to_N n)).
Qed.

Lemma length_append s t :
  String.length (s ++ t) = (String.length s + String.length t)%nat.
Proof.
  induction s as [|c r IH]; [done|].
  change (String c r ++ t) with (String c (r ++ t)). cbn [String.length]. by rewrite IH.
Qed.

Lemma length_zeros k : String.length (zeros k) = k.
Proof. induction k; cbn; congruence. Qed.

(** The padded form reads back as the number, and has at least four
    characters. *)
Lemma format_04_nonneg n :
  (0 ≤ n)%Z →
  format_04 n = zeros (4 - String.length (str_of_nonneg n)) ++ str_of_nonneg n.
Proof. intros Hn. unfold format_04. by destruct (Z.ltb_spec n 0); [lia|]. Qed.

Lemma format_04_int n : (0 ≤ n)%Z → int_of_digits (format_04 n) = Ok n.
Proof.
  intros Hn. rewrite (format_04_nonneg n Hn). unfold int_of_digits.
  pose proof (uint_of_zeros (4 - String.length (str_of_nonneg n)) (str_of_nonneg n)) as Hz.
  rewrite (uint_of_str_of_nonneg n Hn) in Hz.
  destruct (zeros _ ++ str_of_nonneg n) as [|c r] eqn:Hs.
  - exfalso. apply (str_of_nonneg_not_empty n).
    destruct (zeros _); [|discriminate]. exact Hs.
  - destruct (NilEmpty.uint_of_string (String c r)) as [d|]; [|discriminate].
    cbn in Hz. injection Hz as ->. f_equal. lia.
Qed.

Lemma format_04_length n : (4 ≤ String.length (format_04 n))%nat.
Proof.
  unfold format_04. destruct (n <? 0)%Z.
  - change ("-" ++ ?s) with (String "-" s). cbn [String.length].
    rewrite length_append, length_zeros. lia.
  - rewrite length_append, length_zeros. lia.
Qed.

Lemma split_not_empty sep s : split sep s ≠ [].
Proof.
  destruct s as [|c r]; cbn; [done|].
  destruct (Ascii.eqb c sep); [done|]. by destruct (split sep r).
Qed.

(** The last item of a split holds no separator. *)
Lemma last_split_no_sep sep s : has_char sep (last_item (split sep s)) = false.
Proof.
  unfold last_item. induction s as [|c r IH]; [done|].
  cbn [split]. destruct (Ascii.eqb c sep) eqn:Hc.
  - pose proof (split_not_empty sep r). by destruct (split sep r).
  - destruct (split sep r) as [|h t] eqn:Hr; [by destruct (split_not_empty sep r)|].
    destruct t as [|h' t']; [|exact IH].
    cbn in *. by rewrite Hc, IH.
Qed.

(** Replacing a character that does not occur changes nothing. *)
Lemma replace_absent c new s :
  has_char c s = false → replace (String c "") new s = s.
Proof.
  unfold replace. induction s as [|a r IH]; [done|].
  cbn [has_char replace_go strip_prefix]. intros [Ha Hr]%orb_false_iff.
  rewrite Ascii.eqb_sym, Ha. by rewrite IH.
Qed.

(** C8.  An item titled "42: My Episode | Extra" without a structured
    episode field gets episode number 42 and padded form "0042".  For every
    item, the episode string is the text of the feed's [podcast:episode]
    when the item has one and what is parsed from the title otherwise.
    When it is numeric and converts to a number, the episode number is that
    number and the padded form is the number padded with zeros to at least
    four characters (a run of ASCII digits always is numeric and converts).
    When it is not numeric, number and padded form are both the raw
    trailing segment of the link, unpadded, and the file key is that
    segment: stripping the separators leaves it as it is.  A numeric string
    that [int] refuses raises. *)
Theorem episode_numbering (U : UnicodeT) (item : Item) :
  let source :=
    match podcast_episode item with
    | Some pe => pe_episode pe
    | None => parse_episode_number U (item_title item)
    end in
  (item_title item = "42: My Episode | Extra" → podcast_episode item = None →
   episode_numbers U item = Ok (EpInt 42, "0042"))
  ∧ (∀ n, isnumeric U source = true → int_of_str U source = Ok n →
       episode_numbers U item = Ok (EpInt n, format_04 n)
       ∧ (4 ≤ String.length (format_04 n))%nat
       ∧ ((0 ≤ n)%Z →
          format_04 n = zeros (4 - String.length (str_of_nonneg n)) ++ str_of_nonneg n
          ∧ int_of_digits (format_04 n) = Ok n))
  ∧ (is_decimal source = true →
     ∃ n, int_of_digits source = Ok n
          ∧ (0 ≤ n)%Z
          ∧ episode_numbers U item = Ok (EpInt n, format_04 n))
  ∧ (∀ e, isnumeric U source = true → int_of_str U source = Raise e →
       episode_numbers U item = Raise e)
  ∧ (isnumeric U source = false →
     let segment := trailing_segment (link item) in
     episode_numbers U item = Ok (EpStr segment, segment)
     ∧ has_char "/" segment = false
     ∧ episode_file_name segment = segment ++ ".md").
Proof.
  intros source.
  assert (Hsrc : episode_string U item = source) by done.
  split; [|split; [|split; [|split]]].
  - intros Htitle Hnone. unfold episode_numbers, episode_string.
    rewrite Hnone, Htitle. vm_compute. reflexivity.
  - intros n Hnum Hint. unfold episode_numbers. rewrite Hsrc, Hnum, Hint.
    split; [done|]. split; [apply format_04_length|].
    intros Hn. split; [by apply format_04_nonneg | by apply format_04_int].
  - intros Hdec. destruct (decimal_int _ Hdec) as (n & Hint & Hn).
    exists n. split; [done|]. split; [done|].
    unfold episode_numbers.
    by rewrite Hsrc, (decimal_isnumeric U _ Hdec), (decimal_int_of_str U _ Hdec), Hint.
  - intros e Hnum Hint. unfold episode_numbers. by rewrite Hsrc, Hnum, Hint.
  - intros Hnum segment. unfold episode_numbers. rewrite Hsrc, Hnum.
    split; [done|]. split; [apply last_split_no_sep|].
    unfold episode_file_name. rewrite replace_absent; [done|]. apply last_split_no_sep.
Qed.

Lemma episode_numbering_witness :
  let declared :=
    mkItem "42: My Episode | Extra" "https://lup.example/42" "" None "guid-7" "" None None
      None "" "" 0 (Some (mkPodcastEpisode None "7")) [] None None [] in
  episode_numbers no_unicode
    (example_item "42: My Episode | Extra" "https://lup.example/42" None None)
  = Ok (EpInt 42, "0042")
  ∧ episode_numbers no_unicode declared = Ok (EpInt 7, "0007")
  ∧ episode_numbers no_unicode
      (example_item "Holiday Special" "https://lup.example/holiday-special" None None)
    = Ok (EpStr "holiday-special", "holiday-special").
Proof.
  cbv zeta. split; [|split].
  - destruct (episode_numbering no_unicode
                (example_item "42: My Episode | Extra" "https://lup.example/42" None None))
      as [H _].
    apply H; reflexivity.
  - destruct (episode_numbering no_unicode
                (mkItem "42: My Episode | Extra" "https://lup.example/42" "" None "guid-7" ""
                   None None None "" "" 0 (Some (mkPodcastEpisode None "7")) [] None None []))
      as (_ & H & _).
    destruct (H 7%Z) as [Hnum _]; [reflexivity | reflexivity | exact Hnum].
  - destruct (episode_numbering no_unicode
                (example_item "Holiday Special" "https://lup.example/holiday-special" None None))
      as (_ & _ & _ & _ & H).
    destruct H as [H _]; [vm_compute; reflexivity|].
    rewrite H. vm_compute. reflexivity.
Defined.

(** ** What a computation adds to the trace *)

Create HintDb runs.

Section Runs.
Context (E : Event → Prop).
Hypothesis E_log : ∀ l m, E (Log l m).
Hypothesis E_call : ∀ f arg, f ≠ GetDescription → E (Call f arg).

Lemma runs_ret {A} (a : A) (Q : A → Prop) : Q a → runs E (mret a) Q.
Proof.
  intros HQ w r w' [= <- <-]. split; [by exists [] | by intros ? [= <-]].
Qed.

Lemma runs_raise {A} e (Q : A → Prop) : runs E (raise e) Q.
Proof. intros w r w' [= <- <-]. split; [by exists [] | done]. Qed.

Lemma runs_lift {A} (x : Result A) (Q : A → Prop) :
  (∀ a, x = Ok a → Q a) → runs E (lift x) Q.
Proof. intros HQ w r w' [= <- <-]. split; [by exists [] | done]. Qed.

Lemma runs_get_world : runs E get_world (λ _, True).
Proof. intros w r w' [= <- <-]. split; [by exists [] | done]. Qed.

Lemma runs_set_fs f : runs E (set_fs f) (λ _, True).
Proof. intros w r w' [= <- <-]. split; [by exists [] | done]. Qed.

Lemma runs_set_SPONSORS s : runs E (set_SPONSORS s) (λ _, True).
Proof. intros w r w' [= <- <-]. split; [by exists [] | done]. Qed.

Lemma runs_set_PARTICIPANTS p : runs E (set_PARTICIPANTS p) (λ _, True).
Proof. intros w r w' [= <- <-]. split; [by exists [] | done]. Qed.

Lemma runs_http_get env u : runs E (http_get env u) (λ _, True).
Proof. intros w r w' [= <- <-]. split; [by exists [] | done]. Qed.

Lemma runs_emit e : E e → runs E (emit e) (λ _, True).
Proof.
  intros He w r w' [= <- <-]. split; [|done]. exists [e]. split; [done|].
  by constructor.
Qed.

Lemma runs_log l m : runs E (log l m) (λ _, True).
Proof. apply runs_emit, E_log. Qed.

Lemma runs_weaken {A} (m : M A) (P Q : A → Prop) :
  runs E m P → (∀ a, P a → Q a) → runs E m Q.
Proof.
  intros Hm HPQ w r w' Hrun. destruct (Hm w r w' Hrun) as [Hev HP].
  split; [done|]. intros a Ha. by apply HPQ, HP.
Qed.

Lemma runs_bind {A B} (m : M A) (f : A → M B) (P : A → Prop) (Q : B → Prop) :
  runs E m P → (∀ a, P a → runs E (f a) Q) → runs E (m ≫= f) Q.
Proof.
  intros Hm Hf w r w' Hrun. unfold mbind, M_bind in Hrun.
  destruct (m w) as [[a|e] w1] eqn:Hmw.
  - destruct (Hm w _ _ Hmw) as [(new1 & Hev1 & Hall1) HP].
    destruct (Hf a (HP a eq_refl) w1 r w' Hrun) as [(new2 & Hev2 & Hall2) HQ].
    split; [|done]. exists (new2 ++ new1)%list. split.
    + by rewrite Hev2, Hev1, app_assoc.
    + by apply Forall_app.
  - injection Hrun as <- <-. destruct (Hm w _ _ Hmw) as [Hev _]. by split.
Qed.

Lemma runs_bind_any {A B} (m : M A) (f : A → M B) (Q : B → Prop) :
  runs E m (λ _, True) → (∀ a, runs E (f a) Q) → runs E (m ≫= f) Q.
Proof. intros Hm Hf. apply (runs_bind m f (λ _, True)); auto. Qed.

Lemma runs_ret_bind {A B} (a : A) (f : A → M B) (Q : B → Prop) :
  runs E (f a) Q → runs E (mret a ≫= f) Q.
Proof.
  intros Hf. apply (runs_bind _ f (λ x, x = a)); [by apply runs_ret|].
  by intros ? ->.
Qed.

Lemma runs_try {A} (m : M A) :
  runs E m (λ _, True) → runs E (try m) (λ _, True).
Proof.
  intros Hm w r w' Hrun. unfold try in Hrun.
  destruct (m w) as [r0 w1] eqn:Hmw. injection Hrun as <- <-.
  destruct (Hm w _ _ Hmw) as [Hev _]. by split.
Qed.

Lemma runs_for_each {A} (l : list A) (body : A → M unit) :
  (∀ x, runs E (body x) (λ _, True)) → runs E (for_each l body) (λ _, True).
Proof.
  intros Hbody. induction l as [|x l IH]; cbn [for_each].
  - by apply runs_ret.
  - apply runs_bind_any; [apply Hbody | by intros _].
Qed.

Lemma runs_raise_for_status r : runs E (raise_for_status r) (λ _, True).
Proof.
  unfold raise_for_status. destruct (status_ok r); [by apply runs_ret | apply runs_raise].
Qed.

Lemma runs_clean f run arg :
  f ≠ GetDescription → runs E (clean f run arg) (λ _, True).
Proof.
  intros Hf. unfold clean. apply runs_bind_any; [by apply runs_emit, E_call|].
  intros _. by apply runs_lift.
Qed.

End Runs.

(** One step through a computation whose result does not matter. *)
Ltac runs_side := first [assumption | done | auto].

Ltac runs_step :=
  cbv zeta;
  match goal with
  | |- runs _ (mret _) _ => apply runs_ret; try done
  | |- runs _ (raise _) _ => apply runs_raise
  | |- runs _ (lift _) _ => apply runs_lift; try done
  | |- runs _ get_world _ => apply runs_get_world
  | |- runs _ (set_fs _) _ => apply runs_set_fs
  | |- runs _ (set_SPONSORS _) _ => apply runs_set_SPONSORS
  | |- runs _ (set_PARTICIPANTS _) _ => apply runs_set_PARTICIPANTS
  | |- runs _ (http_get _ _) _ => apply runs_http_get
  | |- runs _ (raise_for_status _) _ => apply runs_raise_for_status
  | |- runs _ (log _ _) _ => apply runs_log; runs_side
  | |- runs _ (emit _) _ => apply runs_emit; runs_side
  | |- runs _ (clean _ _ _) _ => apply runs_clean; runs_side
  | |- runs _ (mret _ ≫= _) _ => apply runs_ret_bind
  | |- runs _ (_ ≫= _) _ => apply runs_bind_any; [|intros ?]
  | |- runs _ (try _) _ => apply runs_try
  | |- runs _ (for_each _ _) _ => apply runs_for_each; intros ?
  | |- runs _ (match ?x with _ => _ end) _ => destruct x
  | |- runs _ _ _ => solve [auto with runs]
  end.

Ltac runs_auto := repeat runs_step.

Section RunsOf.
Context (E : Event → Prop).
Hypothesis E_log : ∀ l m, E (Log l m).
Hypothesis E_call : ∀ f arg, f ≠ GetDescription → E (Call f arg).

Lemma runs_save_file p c overwrite : runs E (save_file p c overwrite) (λ _, True).
Proof. unfold save_file. runs_auto. Qed.
#[local] Hint Resolve runs_save_file : runs.

Lemma runs_parse_sponsors env u n show sd :
  runs E (parse_sponsors env u n show sd) (λ _, True).
Proof. unfold parse_sponsors. runs_auto. Qed.
#[local] Hint Resolve runs_parse_sponsors : runs.

Lemma runs_parse_tags env u n show sd :
  runs E (parse_tags env u n show sd) (λ _, True).
Proof. unfold parse_tags. runs_auto. Qed.
#[local] Hint Resolve runs_parse_tags : runs.

Lemma runs_chapters_loop env ch n : ∀ response,
  runs E (chapters_loop env ch n response) (λ _, True).
Proof.
  induction n as [|k IH]; intros response; cbn [chapters_loop]; runs_auto.
Qed.
#[local] Hint Resolve runs_chapters_loop : runs.

Lemma runs_get_podcast_chapters env ch :
  runs E (get_podcast_chapters env ch) (λ _, True).
Proof. unfold get_podcast_chapters, chapters_of_response. runs_auto. Qed.
#[local] Hint Resolve runs_get_podcast_chapters : runs.

Lemma runs_save_avatar_img env i u n : runs E (save_avatar_img env i u n) (λ _, True).
Proof. unfold save_avatar_img. runs_auto. Qed.
#[local] Hint Resolve runs_save_avatar_img : runs.

Lemma runs_build_participants env persons :
  runs E (build_participants env persons) (λ _, True).
Proof. unfold build_participants. runs_auto. Qed.
#[local] Hint Resolve runs_build_participants : runs.

Lemma runs_get_picks env d n show sd : runs E (get_picks env d n show sd) (λ _, True).
Proof. unfold get_picks. runs_auto. Qed.
#[local] Hint Resolve runs_get_picks : runs.

(** With a subtitle, making the episode adds no call of the description
    cleaner and the episode has the subtitle as its description. *)
Lemma runs_make_episode env item show sd n p sponsors subtitle :
  itunes_subtitle item = Some subtitle →
  runs E (make_episode env item show sd n p sponsors)
    (λ ep, description ep = subtitle).
Proof.
  intros Hsub. unfold make_episode. rewrite Hsub. runs_auto.
  by destruct (_ && _).
Qed.

Lemma runs_build_episode_file env item show sd subtitle :
  itunes_subtitle item = Some subtitle →
  runs E (build_episode_file env item show sd)
    (λ o, ∀ ep written, o = Built ep written → description ep = subtitle).
Proof.
  intros Hsub. unfold build_episode_file.
  repeat match goal with
         | |- runs _ (make_episode _ _ _ _ _ _ _ ≫= _) _ =>
             eapply runs_bind; [by apply runs_make_episode|]; intros ep0 Hep0
         | |- _ => runs_step
         end.
  by intros ep wr [= <- _].
Qed.

End RunsOf.

(** ** The episode builder *)

(** C10.  For a feed item that carries an iTunes subtitle, whatever the
    rest of the item, the configuration and the outside world: an episode
    the builder builds has that subtitle, verbatim, as its description, and
    the build makes no call of the description cleaner.  So the cleaner
    runs only for an item without a subtitle.  The same holds of the
    episode object as soon as it is made (lines 192-220), whatever becomes
    of the build after that. *)
Theorem subtitle_is_description (env : Env) (item : Item) (show : string)
    (show_details : ShowDetails) (w : World) (subtitle : string) :
  itunes_subtitle item = Some subtitle →
  let r := build_episode_file env item show show_details w in
  (∀ ep written, r.1 = Ok (Built ep written) → description ep = subtitle)
  ∧ (∃ new, events r.2 = (new ++ events w)%list
            ∧ ∀ arg, Call GetDescription arg ∉ new)
  ∧ ∀ n p sponsors w0,
      let made := make_episode env item show show_details n p sponsors w0 in
      (∀ ep, made.1 = Ok ep → description ep = subtitle)
      ∧ ∃ new, events made.2 = (new ++ events w0)%list
               ∧ ∀ arg, Call GetDescription arg ∉ new.
Proof.
  intros Hsub r.
  assert (Hcall : ∀ f arg, f ≠ GetDescription → not_description_call (Call f arg))
    by by intros [].
  split; [|split].
  - intros ep written Hr.
    destruct (runs_build_episode_file not_description_call (λ _ _, I) Hcall
                env item show show_details subtitle Hsub w r.1 r.2)
      as [_ Hres]; [apply surjective_pairing|].
    by apply (Hres _ Hr ep written).
  - destruct (runs_build_episode_file not_description_call (λ _ _, I) Hcall
                env item show show_details subtitle Hsub w r.1 r.2)
      as [(new & Hev & Hall) _]; [apply surjective_pairing|].
    exists new. split; [done|]. intros arg Hin.
    rewrite Forall_forall in Hall. by apply (Hall _ Hin).
  - intros n p sponsors w0 made.
    destruct (runs_make_episode not_description_call (λ _ _, I) Hcall
                env item show show_details n p sponsors subtitle Hsub w0 made.1 made.2)
      as [(new & Hev & Hall) Hres]; [apply surjective_pairing|].
    split; [intros ep Hr; by apply Hres|].
    exists new. split; [done|]. intros arg Hin.
    rewrite Forall_forall in Hall. by apply (Hall _ Hin).
Qed.

Lemma subtitle_is_description_witness :
  let env := example_env false net_missing_schema in
  let item := solo_item "600: Late" "https://lup.example/600"
                (Some "A <b>short</b> one") in
  ∃ ep,
    (make_episode env item "lup" example_show (EpInt 600) "0600" []
       (initial_world (mkFS ∅ ∅))).1
    = Ok ep
    ∧ description ep = "A <b>short</b> one".
Proof.
  intros env item.
  assert (∃ ep,
    (make_episode env item "lup" example_show (EpInt 600) "0600" []
       (initial_world (mkFS ∅ ∅))).1 = Ok ep) as (ep & Hr).
  { vm_compute. eauto. }
  exists ep. split; [exact Hr|].
  destruct (subtitle_is_description env item "lup" example_show
              (initial_world (mkFS ∅ ∅)) "A <b>short</b> one") as (_ & _ & H).
  - reflexivity.
  - destruct (H (EpInt 600) "0600" [] (initial_world (mkFS ∅ ∅))) as [Hd _].
    exact (Hd ep Hr).
Defined.

(** The two ways to a description, run on an example item: with a
    subtitle the cleaner is not called, without one it is called on the
    raw description. *)
Lemma description_sources :
  let env := example_env false net_missing_schema in
  let with_sub := solo_item "600: Late" "https://lup.example/600" (Some "Short") in
  let without := solo_item "600: Late" "https://lup.example/600" None in
  let calls item :=
    omap (λ e, match e with Call GetDescription a => Some a | _ => None end)
      (events (make_episode env item "lup" example_show (EpInt 600) "0600" []
                 (initial_world (mkFS ∅ ∅))).2) in
  calls with_sub = [] ∧ calls without = ["<p>Your hosts talk shop.</p>"].
Proof. vm_compute. done. Qed.

(** No value of [EPISODE_TYPES] is the string the builder compares with. *)
Lemma is_bonus_never (item : Item) : is_bonus item = false.
Proof. unfold is_bonus. by destruct (itunes_episodeType item) as [[]|]. Qed.


(** ** The run coordinator *)


Lemma drain_first_raised {A} (futures : list (Result A)) w :
  drain futures w
  = match first_raised futures with
    | Some e => (Raise e, w)
    | None => (Ok (), w)
    end.
Proof. induction futures as [|[a|e] r IH]; cbn [drain first_raised]; done. Qed.



(** The failure the builder does contain: when the episode page answers
    with an HTTP error, the build logs it and returns, so the drain finds
    nothing to raise. *)
Lemma page_http_error_is_contained (env : Env) (item : Item) (show : string)
    (show_details : ShowDetails) (w : World) (resp : Response) numbers :
  episode_numbers (Unicode env) item = Ok numbers →
  Overwrite_Existing (Settings env) = true
  ∨ path_exists (fs w) (episode_file env show numbers.2) = false →
  requests_get env (requests w) (link item) = Ok resp →
  status_ok resp = false →
  build_episode_file env item show show_details w
  = (Ok FailedPage,
     add_event (Log ERROR (CouldNotGetEpisodePage (sd_name show_details) numbers.1))
       (mkWorld (fs w) (events w) (S (requests w)) (SPONSORS w) (PARTICIPANTS w))).
Proof.
  intros Hnum Hgo Hget Hst. unfold build_episode_file.
  rewrite is_bonus_never, Hnum.
  erewrite bind_ok; [|done]. cbv zeta.
  erewrite bind_ok; [|done].
  assert (negb (Overwrite_Existing (Settings env))
          && path_exists (fs w) (episode_file env show numbers.2) = false) as Hskip.
  { destruct Hgo as [-> | ->]; [done | apply andb_false_r]. }
  unfold episode_file in Hskip. rewrite Hskip.
  erewrite bind_ok.
  2:{ apply try_run. unfold parse_sponsors.
      erewrite bind_ok; [|unfold http_get; by rewrite Hget].
      apply bind_raise. unfold raise_for_status. by rewrite Hst. }
  cbn beta iota. erewrite bind_ok; [|by erewrite bind_ok]. done.
Qed.

(* ===================================================================== *)
(** * Further properties *)
(* ===================================================================== *)

(** ** What a computation leaves alone *)

Section Does.
Context (R : World → World → Prop) (HQ : Quiet R).

Lemma does_ret {A} (a : A) (Q : A → Prop) : Q a → does R (mret a) Q.
Proof.
  intros HQa w r w' [= <- <-]. split; [apply (quiet_refl R HQ) | by intros ? [= <-]].
Qed.

Lemma does_raise {A} e (Q : A → Prop) : does R (raise e) Q.
Proof. intros w r w' [= <- <-]. split; [apply (quiet_refl R HQ) | done]. Qed.

Lemma does_lift {A} (x : Result A) (Q : A → Prop) :
  (∀ a, x = Ok a → Q a) → does R (lift x) Q.
Proof. intros Hx w r w' [= <- <-]. split; [apply (quiet_refl R HQ) | done]. Qed.

Lemma does_get_world : does R get_world (λ _, True).
Proof. intros w r w' [= <- <-]. split; [apply (quiet_refl R HQ) | done]. Qed.

Lemma does_emit e : does R (emit e) (λ _, True).
Proof. intros w r w' [= <- <-]. split; [apply (quiet_event R HQ) | done]. Qed.

Lemma does_log l m : does R (log l m) (λ _, True).
Proof. apply does_emit. Qed.

Lemma does_http_get env u : does R (http_get env u) (λ _, True).
Proof. intros w r w' [= <- <-]. split; [apply (quiet_request R HQ) | done]. Qed.

Lemma does_weaken {A} (m : M A) (P Q : A → Prop) :
  does R m P → (∀ a, P a → Q a) → does R m Q.
Proof.
  intros Hm HPQ w r w' Hrun. destruct (Hm w r w' Hrun) as [HR HP].
  split; [done|]. intros a Ha. by apply HPQ, HP.
Qed.

Lemma does_bind {A B} (m : M A) (f : A → M B) (P : A → Prop) (Q : B → Prop) :
  does R m P → (∀ a, P a → does R (f a) Q) → does R (m ≫= f) Q.
Proof.
  intros Hm Hf w r w' Hrun. unfold mbind, M_bind in Hrun.
  destruct (m w) as [[a|e] w1] eqn:Hmw.
  - destruct (Hm w _ _ Hmw) as [HR1 HP].
    destruct (Hf a (HP a eq_refl) w1 r w' Hrun) as [HR2 HQ'].
    split; [|done]. by apply (quiet_trans R HQ w w1 w').
  - injection Hrun as <- <-. destruct (Hm w _ _ Hmw) as [HR1 _]. by split.
Qed.

Lemma does_bind_any {A B} (m : M A) (f : A → M B) (Q : B → Prop) :
  does R m (λ _, True) → (∀ a, does R (f a) Q) → does R (m ≫= f) Q.
Proof. intros Hm Hf. apply (does_bind m f (λ _, True)); auto. Qed.

Lemma does_ret_bind {A B} (a : A) (f : A → M B) (Q : B → Prop) :
  does R (f a) Q → does R (mret a ≫= f) Q.
Proof.
  intros Hf. apply (does_bind _ f (λ x, x = a)); [by apply does_ret|].
  by intros ? ->.
Qed.

Lemma does_try {A} (m : M A) :
  does R m (λ _, True) → does R (try m) (λ _, True).
Proof.
  intros Hm w r w' Hrun. unfold try in Hrun.
  destruct (m w) as [r0 w1] eqn:Hmw. injection Hrun as <- <-.
  destruct (Hm w _ _ Hmw) as [HR _]. by split.
Qed.

Lemma does_for_each {A} (l : list A) (body : A → M unit) :
  (∀ x, does R (body x) (λ _, True)) → does R (for_each l body) (λ _, True).
Proof.
  intros Hbody. induction l as [|x l IH]; cbn [for_each].
  - by apply does_ret.
  - apply does_bind_any; [apply Hbody | by intros _].
Qed.

Lemma does_raise_for_status r : does R (raise_for_status r) (λ _, True).
Proof.
  unfold raise_for_status. destruct (status_ok r); [by apply does_ret | apply does_raise].
Qed.

Lemma does_clean f run arg : does R (clean f run arg) (λ _, True).
Proof.
  unfold clean. apply does_bind_any; [apply does_emit|]. intros _. by apply does_lift.
Qed.

Lemma does_run_tasks {A} (tasks : list (M A)) :
  (∀ t, t ∈ tasks → does R t (λ _, True)) → does R (run_tasks tasks) (λ _, True).
Proof.
  induction tasks as [|t r IH]; intros Ht; cbn [run_tasks].
  - by apply does_ret.
  - apply does_bind_any; [apply does_try, Ht; by left|]. intros x.
    apply does_bind_any; [apply IH; intros t' Ht'; apply Ht; by right|].
    intros xs. by apply does_ret.
Qed.

Lemma does_drain {A} (futures : list (Result A)) : does R (drain futures) (λ _, True).
Proof.
  induction futures as [|[a|e] r IH]; cbn [drain];
    [by apply does_ret | done | apply does_raise].
Qed.

End Does.

(** One step through a computation of which only the frame matters. *)
Ltac does_step :=
  cbv zeta;
  match goal with
  | HQ : Quiet ?R |- does ?R (mret _) _ => apply (does_ret R HQ); try done
  | HQ : Quiet ?R |- does ?R (raise _) _ => apply (does_raise R HQ)
  | HQ : Quiet ?R |- does ?R (lift _) _ => apply (does_lift R HQ); try done
  | HQ : Quiet ?R |- does ?R get_world _ => apply (does_get_world R HQ)
  | HQ : Quiet ?R |- does ?R (http_get _ _) _ => apply (does_http_get R HQ)
  | HQ : Quiet ?R |- does ?R (raise_for_status _) _ => apply (does_raise_for_status R HQ)
  | HQ : Quiet ?R |- does ?R (log _ _) _ => apply (does_log R HQ)
  | HQ : Quiet ?R |- does ?R (emit _) _ => apply (does_emit R HQ)
  | HQ : Quiet ?R |- does ?R (clean _ _ _) _ => apply (does_clean R HQ)
  | HQ : Quiet ?R |- does ?R (drain _) _ => apply (does_drain R HQ)
  | HQ : Quiet ?R |- does ?R (mret _ ≫= _) _ => apply (does_ret_bind R HQ)
  | HQ : Quiet ?R |- does ?R (_ ≫= _) _ => apply (does_bind_any R HQ); [|intros ?]
  | |- does _ (try _) _ => apply does_try
  | HQ : Quiet ?R |- does ?R (for_each _ _) _ => apply (does_for_each R HQ); intros ?
  | |- does _ (match ?x with _ => _ end) _ => destruct x
  | |- does _ _ _ => solve [eauto with does]
  end.

Ltac does_auto := repeat does_step.

Create HintDb does.

Section DoesQuiet.
Context (R : World → World → Prop) (HQ : Quiet R).

Lemma does_parse_tags env u n show sd : does R (parse_tags env u n show sd) (λ _, True).
Proof. unfold parse_tags. does_auto. Qed.

Lemma does_chapters_loop env ch n : ∀ response,
  does R (chapters_loop env ch n response) (λ _, True).
Proof.
  induction n as [|k IH]; intros response; cbn [chapters_loop]; does_auto.
Qed.

Lemma does_get_podcast_chapters env ch :
  does R (get_podcast_chapters env ch) (λ _, True).
Proof.
  unfold get_podcast_chapters, chapters_of_response.
  apply (does_bind_any R HQ); [apply does_chapters_loop|]. intros ?. does_auto.
Qed.

End DoesQuiet.

Section DoesFlush.
Context (R : World → World → Prop).
Context (HQ : Quiet R) (HS : Saves R) (HP : FreeParticipants R) (env : Env).

Lemma does_set_PARTICIPANTS p : does R (set_PARTICIPANTS p) (λ _, True).
Proof. intros w r w' [= <- <-]. split; [apply HP | done]. Qed.

Lemma does_update_existing file_path obj overwrite :
  does R (update_existing env file_path obj overwrite) (λ _, True).
Proof.
  unfold update_existing, load_file.
  repeat first [ apply HS | does_step ].
Qed.

Lemma does_process_and_serialize_object filename obj dest_dir overwrite :
  does R (process_and_serialize_object env filename obj dest_dir overwrite) (λ _, True).
Proof.
  unfold process_and_serialize_object.
  repeat first [ apply HS | apply does_update_existing | does_step ].
Qed.

Lemma does_save_participants : does R (save_participants env) (λ _, True).
Proof.
  unfold save_participants.
  repeat first [ apply does_set_PARTICIPANTS | does_step ].
  apply (does_run_tasks R HQ). intros t [[k s] [-> _]]%list_elem_of_fmap.
  apply does_process_and_serialize_object.
Qed.

End DoesFlush.

(** The writer leaves the registries and the request count alone. *)
Lemma save_file_registries p c overwrite w r w' :
  save_file p c overwrite w = (r, w') →
  SPONSORS w' = SPONSORS w ∧ PARTICIPANTS w' = PARTICIPANTS w ∧ requests w' = requests w.
Proof.
  unfold save_file. rewrite (bind_ok get_world _ w w w) by done.
  destruct (negb overwrite && path_exists (fs w) p); [by intros [= <- <-]|].
  destruct (mkdir_parents (fs w) (parent p)) as [fs1|e]; [|by intros [= <- <-]].
  unfold mbind, M_bind, lift, set_fs, log, emit, mret, M_ret; cbn [fs].
  destruct (write_file fs1 p c); by intros [= <- <-].
Qed.

(** ** The registry flush, case by case *)

(** X3.  A flush onto a path that exists never gets to the file: the
    exemption test of line 431 reads [CONFIGURATION.data_dont_override],
    which the configuration does not have, so the call raises
    [AttributeError] and leaves the world as it is, whatever the record and
    the overwrite flag. *)
Theorem flush_onto_existing_path_raises (env : Env) (filename : string)
    (obj : RegistryObject) (dest_dir : Path) (overwrite : bool) (w : World) :
  path_exists (fs w) (dest_dir // filename) = true →
  process_and_serialize_object env filename obj dest_dir overwrite w
  = (Raise AttributeError, w).
Proof.
  intros Hex. unfold process_and_serialize_object.
  rewrite (bind_ok get_world _ w w w) by done.
  rewrite Hex. apply bind_raise. by apply bind_raise.
Qed.

Lemma flush_onto_existing_path_raises_witness :
  let env := example_env true (net_ok "") in
  let w := initial_world
             (one_file sponsors_dir "linode.com-lup.md"
                (sponsor_doc (mkSponsor "linode" (Some 7)))) in
  process_and_serialize_object env "linode.com-lup.md"
    (ObjSponsor (mkSponsor "linode" (Some 9))) sponsors_dir true w
  = (Raise AttributeError, w).
Proof.
  intros env w.
  apply (flush_onto_existing_path_raises env "linode.com-lup.md"
           (ObjSponsor (mkSponsor "linode" (Some 9))) sponsors_dir true w).
  vm_compute. reflexivity.
Defined.

(** X4.  A record that has no file yet is always written, with an empty
    body and the dump of the record as metadata: also when [overwrite] is
    off.  The exemption test does not read the configuration for a path
    that does not exist. *)
Theorem flush_writes_new_file (env : Env) (filename : string) (obj : RegistryObject)
    (dest_dir : Path) (overwrite : bool) (w : World) :
  let file_path := dest_dir // filename in
  path_exists (fs w) file_path = false →
  writable (fs w) file_path = true →
  process_and_serialize_object env filename obj dest_dir overwrite w
  = (Ok (),
     add_event (Log INFO (SavedFile file_path))
       (with_fs (written (fs w) file_path (dumps (mkPost "" (model_dump obj)))) w)).
Proof.
  intros file_path Hnew Hw. unfold process_and_serialize_object.
  rewrite (bind_ok get_world _ w w w) by done.
  fold file_path. rewrite Hnew.
  erewrite bind_ok; [|done]. cbn [negb].
  erewrite bind_ok; [|apply save_file_writes; auto]. done.
Qed.

Lemma flush_writes_new_file_witness :
  let env := example_env false (net_ok "") in
  let w := initial_world (mkFS ∅ ∅) in
  persisted_field
    (fs (process_and_serialize_object env "keep.md" (ObjParticipant chris_in_memory)
           people_dir false w).2)
    (people_dir // "keep.md") "homepage"
  = Some (YStr "https://chrislas.com").
Proof.
  intros env w.
  rewrite (flush_writes_new_file env "keep.md" (ObjParticipant chris_in_memory)
             people_dir false w).
  - vm_compute. reflexivity.
  - vm_compute. reflexivity.
  - vm_compute. reflexivity.
Defined.

(** ** The sponsor registry, page by page *)

Lemma keep_newer_idempotent cur s : keep_newer (keep_newer cur s) s = keep_newer cur s.
Proof.
  unfold keep_newer.
  destruct (Z.ltb_spec (from_option sponsor_number (-1) cur) (sponsor_number s)) as [H|H];
    cbn [from_option].
  - by rewrite Z.ltb_irrefl.
  - destruct (Z.ltb_spec (from_option sponsor_number (-1) cur) (sponsor_number s)); [lia|done].
Qed.

Lemma keep_newer_number cur s :
  (from_option sponsor_number (-1) cur
   ≤ from_option sponsor_number (-1) (keep_newer cur s))%Z.
Proof.
  unfold keep_newer.
  destruct (Z.ltb_spec (from_option sponsor_number (-1) cur) (sponsor_number s));
    cbn [from_option]; lia.
Qed.

Lemma page_entry {V} (page : list (string * V)) k :
  k ∈ page.*1 → ∃ v, (k, v) ∈ page.
Proof. intros [[k' v] [-> Hin]]%list_elem_of_fmap. by exists v. Qed.

(** A page update of a registry of registrable records gives one again. *)
Lemma update_page_registrable (reg reg' : gmap string Sponsor) page :
  (∀ k c, reg !! k = Some c → registrable c) →
  is_dict page →
  update_SPONSORS reg page = Ok reg' →
  ∀ k c, reg' !! k = Some c → registrable c.
Proof.
  intros Hreg Hnd Hup k c Hc.
  destruct (update_page reg page Hreg Hnd) as (reg1 & Hup1 & Hin & Hout).
  rewrite Hup in Hup1. injection Hup1 as <-.
  destruct (decide (k ∈ page.*1)) as [Hk | Hk].
  - destruct (page_entry _ _ Hk) as [s Hs]. rewrite (Hin k s Hs) in Hc.
    apply (keep_newer_registrable (reg !! k) s); [apply Hreg | done].
  - rewrite (Hout k Hk) in Hc. by apply (Hreg k).
Qed.

(** X6.  Merging the sponsors of the same page a second time changes
    nothing: after the first merge no entry of the page is strictly newer
    than what is registered. *)
Theorem page_update_idempotent (reg reg' : gmap string Sponsor)
    (page : list (string * Sponsor)) :
  (∀ k c, reg !! k = Some c → registrable c) →
  is_dict page →
  update_SPONSORS reg page = Ok reg' →
  update_SPONSORS reg' page = Ok reg'.
Proof.
  intros Hreg Hnd Hup.
  pose proof (update_page_registrable reg reg' page Hreg Hnd Hup) as Hreg'.
  destruct (update_page reg page Hreg Hnd) as (reg1 & Hup1 & Hin & Hout).
  rewrite Hup in Hup1. injection Hup1 as <-.
  destruct (update_page reg' page Hreg' Hnd) as (reg2 & Hup2 & Hin2 & Hout2).
  rewrite Hup2. f_equal. apply map_eq. intros k.
  destruct (decide (k ∈ page.*1)) as [Hk | Hk].
  - destruct (page_entry _ _ Hk) as [s Hs].
    by rewrite (Hin2 k s Hs), (Hin k s Hs), keep_newer_idempotent.
  - by rewrite (Hout2 k Hk).
Qed.

Lemma page_update_idempotent_witness :
  let page := [("linode.com-lup.md", mkSponsor "linode" (Some 600));
               ("tailscale.com-lup.md", mkSponsor "tailscale" (Some 600))] in
  let reg : gmap string Sponsor := {["linode.com-lup.md" := mkSponsor "linode" (Some 700)]} in
  ∃ reg', update_SPONSORS reg page = Ok reg' ∧ update_SPONSORS reg' page = Ok reg'.
Proof.
  intros page reg.
  destruct (update_SPONSORS reg page) as [reg'|e] eqn:Hup; [|by vm_compute in Hup].
  exists reg'. split; [done|].
  apply (page_update_idempotent reg reg' page).
  - intros k c Hc. apply sponsor_number_registrable.
    destruct (decide (k = "linode.com-lup.md")) as [-> | Hne].
    + vm_compute in Hc. injection Hc as <-. vm_compute. reflexivity.
    + unfold reg in Hc. by rewrite lookup_singleton_ne in Hc.
  - unfold is_dict. by_decide.
  - exact Hup.
Defined.

(** X7.  A page update never unregisters a key and never lowers the number
    under which a key is registered; keys the page does not mention keep
    their record. *)
Theorem page_update_monotone (reg reg' : gmap string Sponsor)
    (page : list (string * Sponsor)) :
  (∀ k c, reg !! k = Some c → registrable c) →
  is_dict page →
  update_SPONSORS reg page = Ok reg' →
  ∀ k, (registered_number reg k ≤ registered_number reg' k)%Z
       ∧ (is_Some (reg !! k) → is_Some (reg' !! k))
       ∧ (k ∉ page.*1 → reg' !! k = reg !! k).
Proof.
  intros Hreg Hnd Hup k.
  destruct (update_page reg page Hreg Hnd) as (reg1 & Hup1 & Hin & Hout).
  rewrite Hup in Hup1. injection Hup1 as <-. unfold registered_number.
  destruct (decide (k ∈ page.*1)) as [Hk | Hk].
  - destruct (page_entry _ _ Hk) as [s Hs]. rewrite (Hin k s Hs).
    split; [apply keep_newer_number|]. split; [|done].
    intros [c Hc]. rewrite Hc. unfold keep_newer. by destruct (_ <? _)%Z.
  - rewrite (Hout k Hk). split; [lia|]. by split.
Qed.

Lemma page_update_monotone_witness :
  let page := [("linode.com-lup.md", mkSponsor "linode" (Some 600))] in
  let reg : gmap string Sponsor := {["linode.com-lup.md" := mkSponsor "linode" (Some 700)]} in
  ∃ reg', update_SPONSORS reg page = Ok reg'
          ∧ (700 ≤ registered_number reg' "linode.com-lup.md")%Z.
Proof.
  intros page reg.
  destruct (update_SPONSORS reg page) as [reg'|e] eqn:Hup; [|by vm_compute in Hup].
  exists reg'. split; [done|].
  destruct (page_update_monotone reg reg' page) with (k := "linode.com-lup.md") as [H _].
  - intros k c Hc. apply sponsor_number_registrable.
    destruct (decide (k = "linode.com-lup.md")) as [-> | Hne].
    + vm_compute in Hc. injection Hc as <-. vm_compute. reflexivity.
    + unfold reg in Hc. by rewrite lookup_singleton_ne in Hc.
  - unfold is_dict. by_decide.
  - exact Hup.
  - exact H.
Defined.

Lemma register_pages_invariant (pages : list (list (string * Sponsor))) :
  ∀ (reg : gmap string Sponsor) (P : string → Sponsor → Prop),
    (∀ k c, reg !! k = Some c → registrable c ∧ P k c) →
    Forall is_dict pages →
    (∀ page k s, page ∈ pages → (k, s) ∈ page → P k s) →
    ∃ reg', register_pages reg pages = Ok reg'
            ∧ ∀ k c, reg' !! k = Some c → registrable c ∧ P k c.
Proof.
  induction pages as [|page r IH]; intros reg P Hreg Hnd HP.
  - by exists reg.
  - apply Forall_cons in Hnd as [Hpage Hr].
    assert (Hreg0 : ∀ k c, reg !! k = Some c → registrable c) by (intros; by eapply Hreg).
    destruct (update_page reg page Hreg0 Hpage) as (reg1 & Hup & Hin & Hout).
    destruct (IH reg1 P) as (reg' & Hall & Hinv); [|done| |].
    + intros k c Hc. split; [by eapply (update_page_registrable reg reg1 page)|].
      destruct (decide (k ∈ page.*1)) as [Hk | Hk].
      * destruct (page_entry _ _ Hk) as [s Hs]. rewrite (Hin k s Hs) in Hc.
        unfold keep_newer in Hc. destruct (_ <? _)%Z.
        -- injection Hc as <-. apply (HP page); [by left | done].
        -- by eapply Hreg.
      * rewrite (Hout k Hk) in Hc. by eapply Hreg.
    + intros page' k s Hp. apply HP. by right.
    + exists reg'. cbn [register_pages]. rewrite Hup. by split.
Qed.

(** X8.  Starting from the empty registry, merging any sequence of pages
    never raises, and every record the registry then holds was found on one
    of the pages under its key and has an episode number that is present
    and positive: a sponsor whose episode is missing or zero is never
    registered. *)
Theorem registry_holds_positive_episodes (pages : list (list (string * Sponsor))) :
  Forall is_dict pages →
  ∃ reg, register_pages ∅ pages = Ok reg
         ∧ ∀ k s, reg !! k = Some s →
             (∃ page, page ∈ pages ∧ (k, s) ∈ page)
             ∧ ∃ e, sponsor_episode s = Some e ∧ (1 ≤ e)%Z.
Proof.
  intros Hnd.
  destruct (register_pages_invariant pages ∅
              (λ k s, ∃ page, page ∈ pages ∧ (k, s) ∈ page)) as (reg & Hall & Hinv).
  - intros k c Hc. by rewrite lookup_empty in Hc.
  - done.
  - intros page k s Hp Hs. by exists page.
  - exists reg. split; [done|]. intros k s Hs.
    destruct (Hinv k s Hs) as [[Hep Hnum] Hfrom]. split; [done|].
    exists (sponsor_number s). split; [done|].
    unfold sponsor_number in *. destruct (sponsor_episode s) as [e|]; [|lia].
    destruct (Z.eqb_spec e 0); lia.
Qed.

Lemma registry_holds_positive_episodes_witness :
  let pages := [[("linode.com-lup.md", mkSponsor "linode" (Some 0));
                 ("tailscale.com-lup.md", mkSponsor "tailscale" None)];
                [("linode.com-lup.md", mkSponsor "linode" (Some 600))]] in
  ∃ reg : gmap string Sponsor,
    register_pages ∅ pages = Ok reg
    ∧ reg !! "tailscale.com-lup.md" = None
    ∧ reg !! "linode.com-lup.md" = Some (mkSponsor "linode" (Some 600)).
Proof.
  intros pages.
  destruct (registry_holds_positive_episodes pages) as (reg & Hall & _).
  - repeat constructor; unfold is_dict; by_decide.
  - exists reg. split; [exact Hall|].
    vm_compute in Hall. injection Hall as <-. vm_compute. by split.
Defined.

(** ** Sponsor and tag extraction, case by case *)

(** X9.  [parse_sponsors] returns for no page.  When the page is served
    with an OK status, the choice of the strategy reads
    [show_details.host_platform] (line 103, outside the [try]), which a
    [ShowDetails] does not have: the call raises [AttributeError] after its
    one request, with the registry as it was and nothing logged. *)
Theorem served_sponsor_page_raises (env : Env) (u : string) (n : EpisodeNumber)
    (show : string) (sd : ShowDetails) (w : World) :
  let r := parse_sponsors env u n show sd w in
  (∀ found, r.1 ≠ Ok found)
  ∧ (∀ resp, requests_get env (requests w) u = Ok resp → status_ok resp = true →
       r = (Raise AttributeError, add_request w)).
Proof.
  cbv zeta. unfold parse_sponsors, mbind, M_bind, http_get, raise_for_status, lift,
    parse_strategy, host_platform, undeclared, result_bind, mret, M_ret, raise.
  destruct (requests_get env (requests w) u) as [resp|e0]; cbn [fst snd].
  2:{ split; [done|]. by intros resp [=]. }
  destruct (status_ok resp) eqn:Hst; cbn [fst snd].
  - split; [done|]. by intros resp' [= <-] _.
  - split; [done|]. intros resp' [= <-] Hst'. by rewrite Hst in Hst'.
Qed.

Lemma served_sponsor_page_raises_witness :
  let env := example_env false (net_ok "<html/>") in
  let w := initial_world (mkFS ∅ ∅) in
  parse_sponsors env "https://lup.example/600" (EpInt 600) "lup" example_show w
  = (Raise AttributeError, add_request w).
Proof.
  intros env w.
  destruct (served_sponsor_page_raises env "https://lup.example/600" (EpInt 600) "lup"
              example_show w) as [_ H].
  apply (H (mkResponse true "<html/>")); reflexivity.
Defined.

(** X10.  [parse_sponsors] never touches the files or the participants,
    and a call that raises (the page cannot be fetched, or answers with an
    HTTP error) leaves the sponsor registry as it was. *)
Theorem parse_sponsors_failure_leaves_registry (env : Env) (u : string)
    (n : EpisodeNumber) (show : string) (sd : ShowDetails) (w : World) :
  let r := parse_sponsors env u n show sd w in
  fs r.2 = fs w
  ∧ PARTICIPANTS r.2 = PARTICIPANTS w
  ∧ (∀ e, r.1 = Raise e → SPONSORS r.2 = SPONSORS w)
  ∧ (∀ resp, requests_get env (requests w) u = Ok resp → status_ok resp = false →
       r.1 = Raise HTTPError).
Proof.
  cbv zeta. unfold parse_sponsors, mbind, M_bind, http_get, raise_for_status, lift,
    parse_strategy, host_platform, undeclared, result_bind, mret, M_ret, raise.
  destruct (requests_get env (requests w) u) as [resp|e0]; cbn [fst snd fs PARTICIPANTS SPONSORS].
  2:{ repeat split; try done. }
  destruct (status_ok resp) eqn:Hst; cbn [fst snd fs PARTICIPANTS SPONSORS].
  2:{ repeat split; try done. }
  repeat split; try done. by intros resp' [= <-] Hst'; rewrite Hst in Hst'.
Qed.

Lemma parse_sponsors_failure_leaves_registry_witness :
  let env := example_env false net_http_error in
  let w := mkWorld (mkFS ∅ ∅) [] 0 {["linode.com-lup.md" := mkSponsor "linode" (Some 7)]} ∅ in
  let r := parse_sponsors env "https://lup.example/600" (EpInt 600) "lup" example_show w in
  r.1 = Raise HTTPError ∧ SPONSORS r.2 = SPONSORS w.
Proof.
  intros env w r.
  destruct (parse_sponsors_failure_leaves_registry env "https://lup.example/600"
              (EpInt 600) "lup" example_show w) as (_ & _ & Hreg & Hhttp).
  assert (Hr : r.1 = Raise HTTPError).
  { apply (Hhttp (mkResponse false "Not Found")); reflexivity. }
  split; [exact Hr | exact (Hreg HTTPError Hr)].
Defined.

(** X11.  [parse_tags] changes nothing but the log and the request count
    and makes exactly one request.  A missing scheme gives the empty list;
    any other exception of [requests.get] leaves the call as it is; and a
    page that is served, whatever its status, ends in the [AttributeError]
    of line 132, where [show_details.host_platform] is read outside the
    [try]: no page yields tags. *)
Theorem parse_tags_outcomes (env : Env) (u : string) (n : EpisodeNumber)
    (show : string) (sd : ShowDetails) (w : World) :
  let r := parse_tags env u n show sd w in
  only_observed w r.2
  ∧ requests r.2 = S (requests w)
  ∧ (requests_get env (requests w) u = Raise MissingSchema → r = (Ok [], add_request w))
  ∧ (∀ e, requests_get env (requests w) u = Raise e → e ≠ MissingSchema →
       r = (Raise e, add_request w))
  ∧ (∀ resp, requests_get env (requests w) u = Ok resp →
       r = (Raise AttributeError, add_request w)).
Proof.
  cbv zeta. unfold parse_tags, mbind, M_bind, http_get, try, lift, parse_strategy,
    host_platform, undeclared, result_bind, mret, M_ret, raise, only_observed.
  destruct (requests_get env (requests w) u) as [resp|e0]; cbn [fst snd].
  - repeat split; try done.
  - destruct e0; cbn [fst snd fs SPONSORS PARTICIPANTS requests];
      repeat split; try done; by intros e [= <-].
Qed.

Lemma parse_tags_outcomes_witness :
  let w := initial_world (mkFS ∅ ∅) in
  parse_tags (example_env false net_missing_schema) "lup.example/600" (EpInt 600) "lup"
    example_show w
  = (Ok [], add_request w)
  ∧ parse_tags (example_env false (net_ok "<html/>")) "https://lup.example/600"
      (EpInt 600) "lup" example_show w
    = (Raise AttributeError, add_request w).
Proof.
  intros w. split.
  - destruct (parse_tags_outcomes (example_env false net_missing_schema)
                "lup.example/600" (EpInt 600) "lup" example_show w)
      as (_ & _ & H & _).
    apply H. reflexivity.
  - destruct (parse_tags_outcomes (example_env false (net_ok "<html/>"))
                "https://lup.example/600" (EpInt 600) "lup" example_show w)
      as (_ & _ & _ & _ & H).
    apply (H (mkResponse true "<html/>")). reflexivity.
Defined.

(** ** The chapters fetch, case by case *)

Lemma only_observed_quiet : Quiet only_observed.
Proof.
  split.
  - by intros w.
  - intros w1 w2 w3 (? & ? & ?) (? & ? & ?). repeat split; congruence.
  - by intros w e.
  - by intros w.
Qed.

Lemma chapters_loop_requests env ch n : ∀ response w r w',
  chapters_loop env ch n response w = (r, w') →
  (requests w ≤ requests w')%nat ∧ (requests w' ≤ requests w + n)%nat.
Proof.
  induction n as [|k IH]; intros response w r w'; cbn [chapters_loop].
  - intros [= <- <-]. lia.
  - destruct ch as [c|]; [|intros [= <- <-]; lia].
    unfold mbind at 1, M_bind at 1, try, http_get.
    destruct (requests_get env (requests w) (url c)) as [resp|e].
    + destruct (status_ok resp); cbn [negb]; [|intros [= <- <-]; cbn; lia].
      destruct (String.eqb (text resp) "").
      * intros Hrec. apply IH in Hrec. cbn [requests] in Hrec. lia.
      * destruct (Chapters_model_validate_json env (text resp));
          [intros [= <- <-]; cbn; lia|].
        unfold mbind, M_bind, log, emit, mret, M_ret. intros [= <- <-]. cbn. lia.
    + destruct e; try (intros [= <- <-]; cbn; lia).
      unfold mbind at 1, M_bind at 1, log, emit.
      intros Hrec. apply IH in Hrec. cbn [requests] in Hrec. lia.
Qed.

(** X12.  Whatever the network does, [get_podcast_chapters] makes at most
    [Retry_Count] requests, and changes nothing but the log and the request
    count: no file, no registry. *)
Theorem chapters_fetch_is_bounded (env : Env) (ch : option ChaptersRef) (w : World) :
  let r := get_podcast_chapters env ch w in
  only_observed w r.2
  ∧ (requests w ≤ requests r.2)%nat
  ∧ (requests r.2 ≤ requests w + Retry_Count (Settings env))%nat.
Proof.
  cbv zeta. destruct (get_podcast_chapters env ch w) as [r w'] eqn:Hrun. cbn [snd].
  split.
  { by apply (does_get_podcast_chapters only_observed only_observed_quiet) in Hrun as [? _]. }
  unfold get_podcast_chapters in Hrun. unfold mbind at 1, M_bind at 1 in Hrun.
  destruct (chapters_loop env ch (Retry_Count (Settings env)) None w) as [[ex|e] w1] eqn:Hloop;
    apply chapters_loop_requests in Hloop.
  - assert (requests w' = requests w1) as ->; [|done].
    destruct ex as [|response|response].
    + by injection Hrun as <- <-.
    + unfold chapters_of_response in Hrun. destruct response as [resp|]; [|by injection Hrun as <- <-].
      destruct (String.eqb (text resp) ""); [by injection Hrun as <- <-|].
      destruct (Chapters_model_validate_json env (text resp)); by injection Hrun as <- <-.
    + destruct ch as [c|]; [|by injection Hrun as <- <-].
      unfold mbind, M_bind, log, emit, chapters_of_response in Hrun.
      destruct response as [resp|]; [|by injection Hrun as <- <-].
      destruct (String.eqb (text resp) ""); [by injection Hrun as <- <-|].
      destruct (Chapters_model_validate_json env (text resp)); by injection Hrun as <- <-.
  - by injection Hrun as <- <-.
Qed.

(** X13.  An item without a chapters reference gets no chapters, and no
    request is made and nothing is logged for it, as long as the retry
    count is not zero.  With a retry count of zero the call raises
    [AttributeError] instead. *)
Theorem chapters_without_reference (env : Env) (w : World) :
  get_podcast_chapters env None w
  = if decide (Retry_Count (Settings env) = 0%nat) then (Raise AttributeError, w)
    else (Ok None, w).
Proof.
  unfold get_podcast_chapters.
  destruct (Retry_Count (Settings env)) as [|k]; by case_decide.
Qed.

Lemma requests_after_requests n : ∀ w, requests (after_requests n w) = (requests w + n)%nat.
Proof.
  induction n as [|k IH]; intros w; cbn [after_requests]; [lia|].
  rewrite IH. cbn [add_request requests]. lia.
Qed.

(** Attempts answered with an empty body are passed over without a word. *)
Lemma chapters_loop_skips_empty env c k : ∀ n w response,
  (∀ i, (i < k)%nat →
        ∃ resp, requests_get env (requests w + i) (url c) = Ok resp
                ∧ status_ok resp = true ∧ text resp = "") →
  ∃ response',
    chapters_loop env (Some c) (k + n) response w
    = chapters_loop env (Some c) n response' (after_requests k w).
Proof.
  induction k as [|k IH]; intros n w response Hempty; [by exists response|].
  destruct (Hempty 0%nat ltac:(lia)) as (resp & Hget & Hst & Htext).
  rewrite Nat.add_0_r in Hget.
  destruct (IH n (add_request w) (Some resp)) as [response' Hrec].
  { intros i Hi. destruct (Hempty (S i) ltac:(lia)) as (resp' & Hget' & ?).
    exists resp'. split; [|done]. cbn [add_request requests].
    by replace (S (requests w) + i)%nat with (requests w + S i)%nat by lia. }
  exists response'. cbn [Nat.add chapters_loop after_requests].
  erewrite bind_ok; [|apply try_run; unfold http_get; by rewrite Hget].
  cbn beta iota. rewrite Hst, Htext. cbn [negb String.eqb]. exact Hrec.
Qed.

(** Attempts that break off in mid-transfer are passed over with a
    warning each. *)
Lemma chapters_loop_skips_transient env c k : ∀ n w response,
  (∀ i, (i < k)%nat →
        requests_get env (requests w + i) (url c) = Raise ChunkedEncodingError) →
  chapters_loop env (Some c) (k + n) response w
  = chapters_loop env (Some c) n response (after_retries (url c) k w).
Proof.
  induction k as [|k IH]; intros n w response Hfail; [done|].
  pose proof (Hfail 0%nat ltac:(lia)) as Hget. rewrite Nat.add_0_r in Hget.
  cbn [Nat.add chapters_loop after_retries].
  erewrite bind_ok; [|apply try_run; unfold http_get; by rewrite Hget].
  cbn beta iota. erewrite bind_ok; [|done].
  apply IH. intros i Hi. cbn [add_event requests].
  replace (S (requests w) + i)%nat with (requests w + S i)%nat by lia.
  apply Hfail. lia.
Qed.

(** X14.  An empty body is retried like a transient error, but silently:
    after [k] empty bodies, [k] below the retry count, a valid body is
    still fetched and returned, and nothing has been logged. *)
Theorem chapters_empty_bodies_are_retried (env : Env) (c : ChaptersRef) (k : nat)
    (w : World) (resp : Response) (ch : ChaptersData) :
  (k < Retry_Count (Settings env))%nat →
  (∀ i, (i < k)%nat →
        ∃ resp', requests_get env (requests w + i) (url c) = Ok resp'
                 ∧ status_ok resp' = true ∧ text resp' = "") →
  requests_get env (requests w + k) (url c) = Ok resp →
  status_ok resp = true →
  text resp ≠ "" →
  Chapters_model_validate_json env (text resp) = Some ch →
  get_podcast_chapters env (Some c) w
  = (Ok (Some ch), add_request (after_requests k w)).
Proof.
  intros Hk Hempty Hget Hst Htext Hval. unfold get_podcast_chapters.
  replace (Retry_Count (Settings env))
    with (k + S (Retry_Count (Settings env) - S k))%nat by lia.
  apply String.eqb_neq in Htext.
  erewrite bind_ok.
  2:{ destruct (chapters_loop_skips_empty env c k (S (Retry_Count (Settings env) - S k))
                  w None Hempty) as [response' ->].
      cbn [chapters_loop]. erewrite bind_ok.
      2:{ apply try_run. unfold http_get.
          rewrite <- (requests_after_requests k w) in Hget. by rewrite Hget. }
      cbn beta iota. by rewrite Hst, Htext, Hval. }
  unfold chapters_of_response. by rewrite Htext, Hval.
Qed.

Lemma chapters_empty_bodies_are_retried_witness :
  let net := λ (i : nat) (_ : string),
               Ok (mkResponse true (if (i <? 2)%nat then "" else "{}")) in
  let env := example_env false net in
  let w := initial_world (mkFS ∅ ∅) in
  get_podcast_chapters env (Some example_chapters) w
  = (Ok (Some (mkChaptersData "{}")), add_request (after_requests 2 w)).
Proof.
  intros net env w.
  apply (chapters_empty_bodies_are_retried env example_chapters 2 w (mkResponse true "{}")).
  - vm_compute. lia.
  - intros i Hi. exists (mkResponse true ""). cbn.
    destruct i as [|[|i]]; [done | done | lia].
  - reflexivity.
  - reflexivity.
  - discriminate.
  - reflexivity.
Defined.

(** X15.  An HTTP error stops the retry loop: after [k] transient
    failures, [k] below the retry count, a response with an error status
    yields no chapters at once, without a further request and without any
    log beyond the [k] retry warnings. *)
Theorem chapters_http_error_stops_retrying (env : Env) (c : ChaptersRef) (k : nat)
    (w : World) (resp : Response) :
  (k < Retry_Count (Settings env))%nat →
  (∀ i, (i < k)%nat →
        requests_get env (requests w + i) (url c) = Raise ChunkedEncodingError) →
  requests_get env (requests w + k) (url c) = Ok resp →
  status_ok resp = false →
  get_podcast_chapters env (Some c) w
  = (Ok None, add_request (after_retries (url c) k w)).
Proof.
  intros Hk Hfail Hget Hst. unfold get_podcast_chapters.
  replace (Retry_Count (Settings env))
    with (k + S (Retry_Count (Settings env) - S k))%nat by lia.
  erewrite bind_ok.
  2:{ rewrite (chapters_loop_skips_transient env c k _ w None Hfail).
      cbn [chapters_loop]. erewrite bind_ok.
      2:{ apply try_run. unfold http_get.
          rewrite <- (requests_after_retries (url c) k w) in Hget. by rewrite Hget. }
      cbn beta iota. by rewrite Hst. }
  done.
Qed.

Lemma chapters_http_error_stops_retrying_witness :
  let net := λ (i : nat) (_ : string),
               if (i <? 1)%nat then Raise ChunkedEncodingError
               else Ok (mkResponse false "Not Found") in
  let env := example_env false net in
  let w := initial_world (mkFS ∅ ∅) in
  get_podcast_chapters env (Some example_chapters) w
  = (Ok None, add_request (after_retries (url example_chapters) 1 w)).
Proof.
  intros net env w.
  apply (chapters_http_error_stops_retrying env example_chapters 1 w
           (mkResponse false "Not Found")).
  - vm_compute. lia.
  - intros i Hi. destruct i as [|i]; [done | lia].
  - reflexivity.
  - reflexivity.
Defined.

(** The loop is left by [break] only with a response that was fetched,
    has an OK status and a body that validates. *)
Lemma chapters_loop_broke env c n : ∀ response w r w',
  chapters_loop env (Some c) n response w = (Ok (Broke r), w') →
  ∃ i resp,
    r = Some resp
    ∧ (requests w ≤ i)%nat ∧ (i < requests w + n)%nat
    ∧ requests_get env i (url c) = Ok resp
    ∧ status_ok resp = true
    ∧ String.eqb (text resp) "" = false
    ∧ is_Some (Chapters_model_validate_json env (text resp)).
Proof.
  induction n as [|k IH]; intros response w r w'; cbn [chapters_loop]; [done|].
  unfold mbind at 1, M_bind at 1, try, http_get.
  destruct (requests_get env (requests w) (url c)) as [resp|e] eqn:Hget.
  - destruct (status_ok resp) eqn:Hst; cbn [negb]; [|done].
    destruct (String.eqb (text resp) "") eqn:Htext.
    + intros Hrec. apply IH in Hrec as (i & resp' & -> & Hlo & Hhi & Hrest).
      cbn [requests] in Hlo, Hhi. exists i, resp'. repeat split; try lia; apply Hrest.
    + destruct (Chapters_model_validate_json env (text resp)) as [ch|] eqn:Hval; [|done].
      intros [= <- <-]. exists (requests w), resp. repeat split; try lia; try done.
  - destruct e; try done.
    unfold mbind at 1, M_bind at 1, log, emit.
    intros Hrec. apply IH in Hrec as (i & resp' & -> & Hlo & Hhi & Hrest).
    cbn [requests] in Hlo, Hhi. exists i, resp'. repeat split; try lia; apply Hrest.
Qed.

(** When the attempts run out, the response variable holds nothing that
    could be returned: it is as it was, or a response with an empty body. *)
Lemma chapters_loop_exhausted env ch n : ∀ response w r w',
  chapters_loop env ch n response w = (Ok (Exhausted r), w') →
  r = response ∨ ∃ resp, r = Some resp ∧ text resp = "".
Proof.
  induction n as [|k IH]; intros response w r w'; cbn [chapters_loop].
  - intros [= <- <-]. by left.
  - destruct ch as [c|]; [|done].
    unfold mbind at 1, M_bind at 1, try, http_get.
    destruct (requests_get env (requests w) (url c)) as [resp|e].
    + destruct (status_ok resp); cbn [negb]; [|done].
      destruct (String.eqb_spec (text resp) "") as [Htext|Htext].
      * intros Hrec. apply IH in Hrec as [-> | Hrec]; [|by right].
        right. by exists resp.
      * by destruct (Chapters_model_validate_json env (text resp)).
    + destruct e; try done.
      unfold mbind at 1, M_bind at 1, log, emit. intros Hrec. by apply IH in Hrec.
Qed.

(** X16.  Chapters that [get_podcast_chapters] returns are always the
    validation of a body that was fetched from the chapters URL with an OK
    status, in one of the at most [Retry_Count] requests of the call. *)
Theorem chapters_returned_were_validated (env : Env) (ch : option ChaptersRef)
    (w w' : World) (data : ChaptersData) :
  get_podcast_chapters env ch w = (Ok (Some data), w') →
  ∃ c i resp,
    ch = Some c
    ∧ (requests w ≤ i)%nat ∧ (i < requests w + Retry_Count (Settings env))%nat
    ∧ requests_get env i (url c) = Ok resp
    ∧ status_ok resp = true
    ∧ Chapters_model_validate_json env (text resp) = Some data.
Proof.
  unfold get_podcast_chapters. unfold mbind at 1, M_bind at 1.
  destruct (chapters_loop env ch (Retry_Count (Settings env)) None w) as [[ex|e] w1] eqn:Hloop;
    [|done].
  destruct ex as [|r|r].
  - done.
  - destruct ch as [c|].
    2:{ destruct (Retry_Count (Settings env)); cbn in Hloop; discriminate. }
    apply chapters_loop_broke in Hloop as (i & resp & -> & Hlo & Hhi & Hget & Hst & Htext & _).
    unfold chapters_of_response. rewrite Htext.
    destruct (Chapters_model_validate_json env (text resp)) as [d|] eqn:Hval; [|done].
    intros [= <- <-]. by exists c, i, resp.
  - apply chapters_loop_exhausted in Hloop.
    destruct ch as [c|]; [|done].
    unfold mbind, M_bind, log, emit, chapters_of_response.
    destruct Hloop as [-> | (resp & -> & Htext)]; [done|].
    by rewrite Htext.
Qed.

Lemma chapters_returned_were_validated_witness :
  let env := example_env false (net_ok "{}") in
  let w := initial_world (mkFS ∅ ∅) in
  ∃ i resp,
    (i < 3)%nat
    ∧ requests_get env i (url example_chapters) = Ok resp
    ∧ Chapters_model_validate_json env (text resp) = Some (mkChaptersData "{}").
Proof.
  intros env w.
  destruct (chapters_returned_were_validated env (Some example_chapters) w
              (add_request w) (mkChaptersData "{}"))
    as (c & i & resp & [= <-] & _ & Hhi & Hget & _ & Hval).
  - vm_compute. reflexivity.
  - exists i, resp. split; [exact Hhi | by split].
Defined.

(** ** Episode numbers read from titles *)

Lemma digit_not_P c : is_digit c = true → Ascii.eqb "P" c = false.
Proof. by destruct c as [[] [] [] [] [] [] [] []]. Qed.

Lemma lead_byte_not_ascii c : is_lead_byte c = true → is_ascii_char c = false.
Proof. by destruct c as [[] [] [] [] [] [] [] []]. Qed.

Lemma is_ascii_append a b : is_ascii (a ++ b) = is_ascii a && is_ascii b.
Proof.
  induction a as [|c a IH]; [done|].
  change (String c a ++ b) with (String c (a ++ b)). cbn [is_ascii].
  by rewrite IH, andb_assoc.
Qed.

Lemma take_drop_str n : ∀ s, s = take_str n s ++ drop_str n s.
Proof.
  induction n as [|n IH]; intros s; [done|]. destruct s as [|c r]; [done|].
  cbn [take_str drop_str]. change (String c ?a ++ ?b) with (String c (a ++ b)).
  by rewrite <- IH.
Qed.

Lemma take_str_exact ds t : take_str (String.length ds) (ds ++ t) = ds.
Proof.
  induction ds as [|c r IH]; [by destruct t|].
  change (String c r ++ t) with (String c (r ++ t)). cbn [String.length take_str].
  by rewrite IH.
Qed.

Lemma drop_str_exact ds t : drop_str (String.length ds) (ds ++ t) = t.
Proof.
  induction ds as [|c r IH]; [done|].
  change (String c r ++ t) with (String c (r ++ t)). by cbn [String.length drop_str].
Qed.

(** A run of ASCII digits before a colon is found without the tables. *)
Lemma digit_run_leading U ds rest :
  all_digits ds = true → digit_run U 0 (ds ++ String ":" rest) = String.length ds.
Proof.
  induction ds as [|c r IH]; [done|]. cbn [all_digits].
  intros [Hc Hr]%andb_true_iff.
  change (String c r ++ String ":" rest) with (String c (r ++ String ":" rest)).
  cbn [digit_run String.length]. by rewrite Hc, IH.
Qed.

Lemma digits_colon_leading U ds rest :
  is_decimal ds = true → digits_colon U (ds ++ String ":" rest) = Some ds.
Proof.
  intros Hdec. assert (Hall : all_digits ds = true) by by destruct ds.
  unfold digits_colon. rewrite (digit_run_leading U ds rest Hall).
  destruct ds as [|c r]; [done|]. cbn [String.length].
  change (S (String.length r)) with (String.length (String c r)).
  by rewrite drop_str_exact, take_str_exact.
Qed.

(** The ASCII part of a run of digits holds ASCII digits only. *)
Lemma digit_run_ascii U : ∀ s,
  is_ascii (take_str (digit_run U 0 s) s) = true →
  all_digits (take_str (digit_run U 0 s) s) = true.
Proof.
  induction s as [|c r IH]; [done|]. cbn [digit_run].
  destruct (is_digit c) eqn:Hc.
  - cbn [take_str is_ascii all_digits]. rewrite Hc.
    intros [_ Hr]%andb_true_iff. by apply IH.
  - destruct (is_lead_byte c) eqn:Hl; [|done].
    destruct (u_digit U (String c r)) as [|k]; [done|].
    cbn [take_str is_ascii]. by rewrite (lead_byte_not_ascii c Hl).
Qed.

Lemma digits_colon_shape U s g :
  digits_colon U s = Some g →
  g ≠ ""
  ∧ (is_ascii g = true → is_decimal g = true)
  ∧ ∃ rest, s = g ++ String ":" rest.
Proof.
  unfold digits_colon.
  destruct (digit_run U 0 s) as [|n] eqn:Hn; [done|].
  destruct (drop_str (S n) s) as [|c rest] eqn:Hd; [done|].
  destruct (Ascii.eqb c ":") eqn:Hc.
  - apply Ascii.eqb_eq in Hc as ->.
    pose proof (digit_run_ascii U s) as Hall. rewrite Hn in Hall.
    pose proof (take_drop_str (S n) s) as Hs. rewrite Hd in Hs.
    assert (Hne : take_str (S n) s ≠ "") by (by destruct s).
    revert Hall Hs Hne. generalize (take_str (S n) s). intros g0 Hall Hs Hne [= <-].
    split; [done|]. split; [|by exists rest].
    intros Ha. specialize (Hall Ha). by destruct g0.
  - intros H. exfalso. revert H Hc. clear.
    by destruct c as [[] [] [] [] [] [] [] []].
Qed.

Lemma strip_prefix_append p s r : strip_prefix p s = Some r → s = p ++ r.
Proof.
  revert s. induction p as [|a p IH]; intros s; cbn [strip_prefix].
  - by intros [= ->].
  - destruct s as [|b s]; [done|]. destruct (Ascii.eqb a b) eqn:E; [|done].
    apply Ascii.eqb_eq in E as ->. intros H. by rewrite (IH _ H).
Qed.

Lemma strip_prefix_exact p r : strip_prefix p (p ++ r) = Some r.
Proof.
  induction p as [|a p IH]; [done|].
  change (String a p ++ r) with (String a (p ++ r)).
  cbn [strip_prefix]. by rewrite Ascii.eqb_refl.
Qed.

Lemma number_group_shape U s g :
  number_group U s = Some g →
  (∃ ds, ds ≠ "" ∧ (is_ascii ds = true → is_decimal ds = true)
         ∧ (g = ds ∨ g = "Pocket Office " ++ ds))
  ∧ ∃ rest, s = g ++ String ":" rest.
Proof.
  unfold number_group.
  destruct (strip_prefix "Pocket Office " s) as [r|] eqn:Hp.
  - destruct (digits_colon U r) as [ds|] eqn:Hr.
    + intros [= <-]. destruct (digits_colon_shape _ _ _ Hr) as (Hne & Hdec & rest & ->).
      split; [exists ds; auto|]. exists rest. by apply strip_prefix_append in Hp.
    + intros H. destruct (digits_colon_shape _ _ _ H) as (Hne & Hdec & rest & ->).
      split; [exists g; auto | by exists rest].
  - intros H. destruct (digits_colon_shape _ _ _ H) as (Hne & Hdec & rest & ->).
    split; [exists g; auto | by exists rest].
Qed.

Lemma has_char_append c s t : has_char c (s ++ t) = has_char c s || has_char c t.
Proof.
  induction s as [|a s IH]; [done|].
  change (String a s ++ t) with (String a (s ++ t)). cbn [has_char].
  rewrite IH. by rewrite orb_assoc.
Qed.

Lemma match_number_shape U s g :
  match_number U s = Some g →
  (∃ ds, ds ≠ "" ∧ (is_ascii ds = true → is_decimal ds = true)
         ∧ (g = ds ∨ g = "Pocket Office " ++ ds))
  ∧ ∃ before rest, s = before ++ g ++ String ":" rest ∧ has_char newline before = false.
Proof.
  induction s as [|c r IH].
  - cbn. done.
  - cbn [match_number]. destruct (number_group U (String c r)) as [g'|] eqn:Hg.
    + intros [= <-]. destruct (number_group_shape _ _ _ Hg) as [Hds [rest Hs]].
      split; [done|]. by exists "", rest.
    + destruct (Ascii.eqb c newline) eqn:Hc; [done|]. intros H.
      destruct (IH H) as [Hds (before & rest & -> & Hb)]. split; [done|].
      exists (String c before), rest. split; [done|].
      cbn [has_char]. by rewrite Hc, Hb.
Qed.

(** X17.  The number at the start of a title is the episode number: a
    title that starts with ASCII digits and a colon gets exactly those
    digits (as an [int], zero-padded to four places), while a title that
    starts with [Pocket Office], digits and a colon gets
    [Pocket Office <digits>], which is not numeric, so the episode is keyed
    by the last segment of its link. *)
Theorem leading_number_is_parsed (U : UnicodeT) (item : Item) (ds rest : string) :
  is_decimal ds = true →
  podcast_episode item = None →
  (item_title item = ds ++ String ":" rest →
   parse_episode_number U (item_title item) = ds
   ∧ ∃ n, int_of_digits ds = Ok n
          ∧ episode_numbers U item = Ok (EpInt n, format_04 n))
  ∧ (item_title item = "Pocket Office " ++ ds ++ String ":" rest →
     parse_episode_number U (item_title item) = "Pocket Office " ++ ds
     ∧ episode_numbers U item
       = Ok (EpStr (trailing_segment (link item)), trailing_segment (link item))).
Proof.
  intros Hnum Hpe. split; intros Ht.
  - assert (Hparse : parse_episode_number U (item_title item) = ds).
    { rewrite Ht. unfold parse_episode_number.
      destruct ds as [|c r]; [done|].
      assert (Hc : is_digit c = true).
      { cbn in Hnum. by apply andb_true_iff in Hnum as [? _]. }
      assert (Hg : number_group U (String c r ++ String ":" rest) = Some (String c r)).
      { unfold number_group.
        change (String c r ++ String ":" rest) with (String c (r ++ String ":" rest)).
        cbn [strip_prefix]. rewrite (digit_not_P c Hc).
        change (String c (r ++ String ":" rest)) with (String c r ++ String ":" rest).
        by apply digits_colon_leading. }
      change (String c r ++ String ":" rest) with (String c (r ++ String ":" rest)) in *.
      cbn [match_number]. by rewrite Hg. }
    split; [done|]. destruct (decimal_int ds Hnum) as (n & Hn & _).
    exists n. split; [done|]. unfold episode_numbers, episode_string.
    by rewrite Hpe, Hparse, (decimal_isnumeric U ds Hnum), (decimal_int_of_str U ds Hnum), Hn.
  - assert (Hparse : parse_episode_number U (item_title item) = "Pocket Office " ++ ds).
    { rewrite Ht. unfold parse_episode_number.
      assert (Hg : number_group U ("Pocket Office " ++ ds ++ String ":" rest)
                   = Some ("Pocket Office " ++ ds)).
      { unfold number_group. rewrite strip_prefix_exact.
        by rewrite (digits_colon_leading U _ _ Hnum). }
      remember ("Pocket Office " ++ ds ++ String ":" rest) as s eqn:Hs.
      destruct s as [|c r]; [done|]. cbn [match_number]. by rewrite Hg. }
    split; [done|]. unfold episode_numbers, episode_string.
    rewrite Hpe, Hparse.
    assert (Hnot : isnumeric U ("Pocket Office " ++ ds) = false).
    { unfold isnumeric. rewrite is_ascii_append, (decimal_ascii ds Hnum). done. }
    by rewrite Hnot.
Qed.

Lemma leading_number_is_parsed_witness :
  let item t := example_item t "https://lup.example/pocket-office-7" None None in
  episode_numbers no_unicode (item "7: Small") = Ok (EpInt 7, "0007")
  ∧ episode_numbers no_unicode (item "Pocket Office 7: Small")
    = Ok (EpStr "pocket-office-7", "pocket-office-7").
Proof.
  split.
  - destruct (leading_number_is_parsed no_unicode
                (example_item "7: Small" "https://lup.example/pocket-office-7" None None)
                "7" " Small" eq_refl eq_refl) as [H _].
    destruct (H eq_refl) as [_ (n & Hn & Hnum)].
    injection Hn as <-. exact Hnum.
  - destruct (leading_number_is_parsed no_unicode
                (example_item "Pocket Office 7: Small"
                   "https://lup.example/pocket-office-7" None None)
                "7" " Small" eq_refl eq_refl) as [_ H].
    destruct (H eq_refl) as [_ Hnum]. exact Hnum.
Defined.

(** X18.  What [parse_episode_number] returns, when it is not empty,
    stands in the title right before a colon, with no line break before
    it; a title without a colon always gives the empty string; and a
    result that is all ASCII is empty, a run of digits, or [Pocket Office]
    and a run of digits (outside ASCII the digits are those of the Unicode
    tables). *)
Theorem parsed_number_shape (U : UnicodeT) (title : string) :
  let r := parse_episode_number U title in
  (r ≠ "" →
   ∃ before rest, title = before ++ r ++ String ":" rest
                  ∧ has_char newline before = false)
  ∧ (has_char ":" title = false → r = "")
  ∧ (is_ascii r = true →
     r = "" ∨ ∃ ds, is_decimal ds = true ∧ (r = ds ∨ r = "Pocket Office " ++ ds)).
Proof.
  cbv zeta. unfold parse_episode_number.
  destruct (match_number U title) as [g|] eqn:Hm.
  - destruct (match_number_shape _ _ _ Hm)
      as [(ds & Hne & Hdec & Hg) (before & rest & Ht & Hb)].
    split; [by exists before, rest|]. split.
    + rewrite Ht, !has_char_append. cbn [has_char]. rewrite Ascii.eqb_refl.
      by rewrite !orb_true_r.
    + intros Ha. right. exists ds. split; [|done]. apply Hdec.
      destruct Hg as [-> | ->]; [done|].
      rewrite is_ascii_append in Ha. by apply andb_true_iff in Ha as [_ ?].
  - split; [done|]. split; [done|]. by left.
Qed.

Lemma parsed_number_shape_witness :
  parse_episode_number no_unicode "Coder Radio" = ""
  ∧ ∃ before rest, "Episode 12: Twelve" = before ++ "12" ++ String ":" rest
                   ∧ has_char newline before = false.
Proof.
  split.
  - by apply (parsed_number_shape no_unicode "Coder Radio").
  - by apply (parsed_number_shape no_unicode "Episode 12: Twelve").
Defined.

(** ** Avatars and participants *)

(** X19.  A failed avatar download never ends the build: whatever the
    network answers and whatever the writer does, [save_avatar_img] returns
    normally and leaves both registries alone.  When the avatar file exists
    it makes no request and only logs a warning; otherwise it makes exactly
    one request, and a request that raises or answers with an HTTP error
    status is logged as an error with nothing written. *)
Theorem avatar_failure_is_contained (env : Env) (i u n : string) (w : World) :
  let p := DATA_DIR (Settings env) // "static" // "images" // "people" // n in
  let r := save_avatar_img env i u n w in
  r.1 = Ok ()
  ∧ SPONSORS r.2 = SPONSORS w
  ∧ PARTICIPANTS r.2 = PARTICIPANTS w
  ∧ (path_exists (fs w) p = true →
     r.2 = add_event (Log WARNING (SkipSavingExists p)) w)
  ∧ (path_exists (fs w) p = false →
     requests r.2 = S (requests w)
     ∧ (∀ e, requests_get env (requests w) i = Raise e →
          r.2 = add_event (Log ERROR (FailedToSaveAvatar i u)) (add_request w))
     ∧ (∀ resp, requests_get env (requests w) i = Ok resp → status_ok resp = false →
          r.2 = add_event (Log ERROR (FailedToSaveAvatar i u)) (add_request w))).
Proof.
  intros p r. subst r.
  destruct (save_avatar_img env i u n w) as [r w'] eqn:Hrun. cbn [fst snd].
  revert Hrun. unfold save_avatar_img, try. unfold mbind at 1. unfold M_bind.
  rewrite (bind_ok get_world _ w w w) by done. fold p.
  destruct (path_exists (fs w) p) eqn:Hex.
  { unfold log, emit. intros [= <- <-]. repeat split; done. }
  unfold mbind at 1. unfold M_bind, http_get.
  destruct (requests_get env (requests w) i) as [resp|e] eqn:Hget.
  - unfold raise_for_status. destruct (status_ok resp) eqn:Hst.
    + unfold mbind at 1. unfold M_bind, mret, M_ret.
      unfold mbind at 1. unfold M_bind.
      destruct (save_file _ _ false _) as [[b|e] w2] eqn:Hsave;
        apply save_file_registries in Hsave as (HS & HP & HR); cbn in HS, HP, HR;
        unfold log, emit; intros [= <- <-];
        cbn [SPONSORS PARTICIPANTS requests];
        (repeat split; [done..|]);
        intros resp' [= <-]; congruence.
    + unfold log, emit, mbind, M_bind, raise. intros [= <- <-].
      repeat split; try done.
  - unfold log, emit. intros [= <- <-]. repeat split; try done.
Qed.

Lemma avatar_failure_is_contained_witness :
  let env := example_env false net_http_error in
  let w := initial_world (mkFS ∅ ∅) in
  save_avatar_img env "https://example.org/chris.png" "chris" "chris.png" w
  = (Ok (),
     add_event
       (Log ERROR (FailedToSaveAvatar "https://example.org/chris.png" "chris"))
       (add_request w)).
Proof.
  cbv zeta.
  pose proof (avatar_failure_is_contained (example_env false net_http_error)
                "https://example.org/chris.png" "chris" "chris.png"
                (initial_world (mkFS ∅ ∅))) as (Hok & _ & _ & _ & Hnew).
  destruct (Hnew eq_refl) as (_ & _ & Hbad).
  specialize (Hbad _ eq_refl eq_refl).
  destruct (save_avatar_img _ _ _ _ _) as [r w']. cbn [fst snd] in *.
  by rewrite Hok, Hbad.
Defined.

(** X20.  [build_participants] registers nobody.  The first person whose
    role is a host or a guest role ends the call: its canonical username
    cannot be worked out (line 340 calls [get_canonical_username]), so
    [AttributeError] is raised before any avatar is fetched and before the
    registry is written.  Only a list without such a person returns, and
    then nothing has been done at all. *)
Theorem participants_are_not_registered (env : Env) (persons : list Person) (w : World) :
  let listed p :=
    in_roles (Host_Roles (Settings env) ++ Guest_Roles (Settings env)) p in
  build_participants env persons w
  = (if existsb listed persons then Raise AttributeError else Ok (), w).
Proof.
  cbv zeta. unfold build_participants.
  induction persons as [|p ps IH]; [done|].
  cbn [List.filter existsb].
  destruct (in_roles _ p); [|exact IH].
  cbn [for_each orb]. apply bind_raise. by apply bind_raise.
Qed.

(** ** The registries across a show *)

Lemma bind_ok_inv {A B} (m : M A) (f : A → M B) w b w' :
  (m ≫= f) w = (Ok b, w') → ∃ a w1, m w = (Ok a, w1) ∧ f a w1 = (Ok b, w').
Proof.
  unfold mbind, M_bind. destruct (m w) as [[a|e] w1]; [by eauto | done].
Qed.

Lemma same_SPONSORS_quiet : Quiet same_SPONSORS.
Proof.
  split; unfold same_SPONSORS; try done.
  intros w1 w2 w3 H12 H23. by rewrite H23.
Qed.

Lemma same_SPONSORS_saves : Saves same_SPONSORS.
Proof.
  intros p c overwrite w r w' Hrun. split; [|done].
  by apply save_file_registries in Hrun as [? _].
Qed.

Lemma same_SPONSORS_participants : FreeParticipants same_SPONSORS.
Proof. by intros w p. Qed.

Lemma save_sponsors_clears env w w' :
  save_sponsors env w = (Ok (), w') → SPONSORS w' = ∅.
Proof.
  unfold save_sponsors. intros Hrun.
  apply bind_ok_inv in Hrun as (_ & w1 & _ & Hrun).
  apply bind_ok_inv in Hrun as (w2 & w3 & _ & Hrun).
  apply bind_ok_inv in Hrun as (futures & w4 & _ & Hrun).
  apply bind_ok_inv in Hrun as (_ & w5 & _ & Hrun).
  apply bind_ok_inv in Hrun as (_ & w6 & _ & Hrun).
  by injection Hrun as <-.
Qed.

Lemma save_participants_clears env w w' :
  save_participants env w = (Ok (), w') →
  PARTICIPANTS w' = ∅ ∧ SPONSORS w' = SPONSORS w.
Proof.
  intros Hrun. split.
  - revert Hrun. unfold save_participants. intros Hrun.
    apply bind_ok_inv in Hrun as (_ & w1 & _ & Hrun).
    apply bind_ok_inv in Hrun as (w2 & w3 & _ & Hrun).
    apply bind_ok_inv in Hrun as (futures & w4 & _ & Hrun).
    apply bind_ok_inv in Hrun as (_ & w5 & _ & Hrun).
    apply bind_ok_inv in Hrun as (_ & w6 & _ & Hrun).
    by injection Hrun as <-.
  - by apply (does_save_participants same_SPONSORS same_SPONSORS_quiet
                same_SPONSORS_saves same_SPONSORS_participants env) in Hrun as [? _].
Qed.

(** X21.  A show that ends without an exception leaves both registries
    empty: what the episodes of the show registered has been flushed and
    is not carried over to the next show. *)
Theorem finished_show_clears_registries (env : Env) (show : string)
    (show_config : ShowDetails) (items : list Item) (w w' : World) :
  run_show env show show_config items w = (Ok (), w') →
  SPONSORS w' = ∅ ∧ PARTICIPANTS w' = ∅.
Proof.
  unfold run_show. intros Hrun.
  apply bind_ok_inv in Hrun as (futures & w1 & _ & Hrun).
  apply bind_ok_inv in Hrun as (_ & w2 & _ & Hrun).
  apply bind_ok_inv in Hrun as (_ & w3 & _ & Hrun).
  apply bind_ok_inv in Hrun as ([] & w4 & Hs & Hp).
  apply save_sponsors_clears in Hs.
  apply save_participants_clears in Hp as [Hp Hs'].
  split; [by rewrite Hs', Hs | done].
Qed.

Lemma finished_show_clears_registries_witness :
  let env := example_env false net_http_error in
  let items := [example_item "600: Late" "https://lup.example/600" None None] in
  let w := mkWorld (mkFS ∅ ∅) [] 0
             {["linode.com-lup.md" := mkSponsor "linode" (Some 600)]}
             {["chris.md" := chris_in_memory]} in
  let r := run_show env "lup" example_show items w in
  r.1 = Ok ()
  ∧ is_file (fs r.2) (people_dir // "chris.md") = true
  ∧ SPONSORS r.2 = ∅ ∧ PARTICIPANTS r.2 = ∅.
Proof.
  cbv zeta.
  split; [by vm_compute|]. split; [by vm_compute|].
  apply (finished_show_clears_registries
           (example_env false net_http_error) "lup" example_show
           [example_item "600: Late" "https://lup.example/600" None None]
           (mkWorld (mkFS ∅ ∅) [] 0
              {["linode.com-lup.md" := mkSponsor "linode" (Some 600)]}
              {["chris.md" := chris_in_memory]})).
  vm_compute. reflexivity.
Defined.

(** ** Episodes that are already there *)

Lemma build_skips_existing (env : Env) (item : Item) (show : string)
    (show_details : ShowDetails) (w : World) numbers :
  Overwrite_Existing (Settings env) = false →
  episode_numbers (Unicode env) item = Ok numbers →
  path_exists (fs w) (episode_file env show numbers.2) = true →
  build_episode_file env item show show_details w
  = (Ok SkippedExists,
     add_event (Log WARNING (SkipSavingNotOverwriting (episode_file env show numbers.2))) w).
Proof.
  intros Hoff Hnum Hex. unfold build_episode_file.
  rewrite is_bonus_never, Hnum.
  erewrite bind_ok; [|done]. cbv zeta.
  erewrite bind_ok; [|done].
  unfold episode_file in Hex. rewrite Hoff, Hex. cbn [negb andb].
  by erewrite bind_ok.
Qed.

Lemma run_tasks_skip_existing (env : Env) (show : string) (show_details : ShowDetails)
    (items : list Item) : ∀ w,
  Overwrite_Existing (Settings env) = false →
  (∀ item, item ∈ items →
     ∃ numbers, episode_numbers (Unicode env) item = Ok numbers
                ∧ path_exists (fs w) (episode_file env show numbers.2) = true) →
  ∃ futures w',
    run_tasks ((λ item, build_episode_file env item show show_details) <$> items) w
    = (Ok futures, w')
    ∧ first_raised futures = None
    ∧ fs w' = fs w ∧ requests w' = requests w
    ∧ SPONSORS w' = SPONSORS w ∧ PARTICIPANTS w' = PARTICIPANTS w.
Proof.
  induction items as [|item items IH]; intros w Hoff Hex.
  - by exists [], w.
  - destruct (Hex item (list_elem_of_here _ _)) as (numbers & Hnum & Hfile).
    cbn [fmap list_fmap run_tasks].
    pose proof (build_skips_existing env item show show_details w numbers Hoff Hnum Hfile)
      as Hskip.
    destruct (IH (add_event
                    (Log WARNING
                       (SkipSavingNotOverwriting (episode_file env show numbers.2))) w)
                Hoff)
      as (futures & w' & Hrun & Hnone & Hfs & Hreq & HS & HP).
    { intros item' Hin. cbn [add_event fs]. apply (Hex item'). by right. }
    exists (Ok SkippedExists :: futures), w'. split.
    + erewrite bind_ok; [|by apply try_run]. by erewrite bind_ok.
    + done.
Qed.

(** X22.  With [Overwrite_Existing] off, a show whose submitted episodes
    all have a number and their file already costs nothing: starting from
    empty registries, no request is made, no file or directory is touched,
    and the show ends normally with the registries empty. *)
Theorem up_to_date_show_costs_nothing (env : Env) (show : string)
    (show_config : ShowDetails) (items : list Item) (w : World) :
  Overwrite_Existing (Settings env) = false →
  SPONSORS w = ∅ →
  PARTICIPANTS w = ∅ →
  (∀ item, item ∈ submitted (Settings env) items →
     ∃ numbers, episode_numbers (Unicode env) item = Ok numbers
                ∧ path_exists (fs w) (episode_file env show numbers.2) = true) →
  let r := run_show env show show_config items w in
  r.1 = Ok ()
  ∧ fs r.2 = fs w
  ∧ requests r.2 = requests w
  ∧ SPONSORS r.2 = ∅
  ∧ PARTICIPANTS r.2 = ∅.
Proof.
  intros Hoff HS HP Hex. cbv zeta. unfold run_show.
  destruct (run_tasks_skip_existing env show show_config
              (submitted (Settings env) items) w Hoff Hex)
    as (futures & w1 & Hrun & Hnone & Hfs & Hreq & HS1 & HP1).
  erewrite bind_ok; [|exact Hrun].
  rewrite HS in HS1. rewrite HP in HP1.
  set (w2 := before_drain env items w1).
  assert (Hlog : (if LATEST_ONLY (Settings env)
                     && bool_decide (LATEST_ONLY_EP_LIMIT (Settings env) < length items)%nat
                  then log DEBUG (LimitingScraping (LATEST_ONLY_EP_LIMIT (Settings env)))
                  else mret ()) w1 = (Ok (), w2)).
  { unfold w2, before_drain. by destruct (_ && _). }
  erewrite bind_ok; [|exact Hlog].
  erewrite bind_ok; [|by rewrite drain_first_raised, Hnone].
  assert (Hw2 : fs w2 = fs w ∧ requests w2 = requests w
                ∧ SPONSORS w2 = ∅ ∧ PARTICIPANTS w2 = ∅).
  { unfold w2, before_drain. by destruct (_ && _). }
  destruct Hw2 as (Hfs2 & Hreq2 & HS2 & HP2).
  unfold save_sponsors, save_participants, mbind, M_bind, log, emit, get_world,
    set_SPONSORS, set_PARTICIPANTS.
  cbn [SPONSORS PARTICIPANTS fs events requests].
  rewrite HS2, HP2, map_to_list_empty. cbn. done.
Qed.

Lemma up_to_date_show_costs_nothing_witness :
  let env := example_env false (net_ok "<html></html>") in
  let items := [example_item "600: Late" "https://lup.example/600" None None] in
  let w := initial_world (one_file ["data"; "content"; "show"; "lup"] "0600.md" (Text "")) in
  let r := run_show env "lup" example_show items w in
  r.1 = Ok () ∧ fs r.2 = fs w ∧ requests r.2 = requests w.
Proof.
  cbv zeta.
  pose proof (up_to_date_show_costs_nothing
                (example_env false (net_ok "<html></html>")) "lup" example_show
                [example_item "600: Late" "https://lup.example/600" None None]
                (initial_world
                   (one_file ["data"; "content"; "show"; "lup"] "0600.md" (Text "")))
                eq_refl eq_refl eq_refl) as H.
  destruct H as (Hok & Hfs & Hreq & _).
  - intros item Hin.
    apply elem_of_cons in Hin as [-> | Hin]; [|by apply elem_of_nil in Hin].
    exists (EpInt 600, "0600"). split; by vm_compute.
  - done.
Defined.

(** ** What the builder assembles *)

Lemma clean_ok f run arg w a w' : clean f run arg w = (Ok a, w') → run arg = Ok a.
Proof.
  unfold clean. intros H. apply bind_ok_inv in H as (_ & w1 & _ & H).
  by injection H.
Qed.

Lemma lift_ok {A} (x : Result A) w a w' : lift x w = (Ok a, w') → x = Ok a.
Proof. destruct x; by intros [= -> _]. Qed.

(** No name is ever made canonical, so a list of names is returned only
    when nobody has one of the roles. *)
Lemma role_usernames_ok env roles persons l :
  role_usernames env roles persons = Ok l →
  l = [] ∧ ∀ p, p ∈ persons → in_roles roles p = false.
Proof.
  unfold role_usernames.
  destruct (List.filter (in_roles roles) persons) as [|q qs] eqn:Hf.
  - intros [= <-]. split; [done|]. intros p Hp.
    destruct (in_roles roles p) eqn:E; [|done].
    assert (Hin : In p (List.filter (in_roles roles) persons)).
    { apply filter_In. split; [by apply list_elem_of_In | done]. }
    rewrite Hf in Hin. destruct Hin.
  - done.
Qed.

Lemma in_roles_app l1 l2 p :
  in_roles (l1 ++ l2) p = in_roles l1 p || in_roles l2 p.
Proof.
  unfold in_roles. destruct (role p) as [r|]; [|done].
  apply eq_true_iff_eq. rewrite orb_true_iff, !bool_decide_eq_true, elem_of_app. done.
Qed.

Lemma make_episode_inv (env : Env) (item : Item) (show : string)
    (show_details : ShowDetails) n p sponsors (w w' : World) (ep : Episode) :
  make_episode env item show show_details n p sponsors w = (Ok ep, w') →
  ∃ links hs gs e0,
    get_links env (links_source item) = Ok links
    ∧ role_usernames env (Host_Roles (Settings env)) (podcast_persons item) = Ok hs
    ∧ role_usernames env (Guest_Roles (Settings env)) (podcast_persons item) = Ok gs
    ∧ ep = (if String.eqb show "this-week-in-bitcoin" && bool_decide (hs = [])
            then set_hosts ["chris"] e0 else e0)
    ∧ hosts e0 = hs
    ∧ guests e0 = gs
    ∧ episode_links e0 = patch_links show links.
Proof.
  unfold make_episode. cbv zeta. intros H.
  apply bind_ok_inv in H as (tags & w1 & _ & H).
  apply bind_ok_inv in H as (links & w2 & Hlinks%clean_ok & H).
  apply bind_ok_inv in H as (title & w3 & _ & H).
  apply bind_ok_inv in H as (description & w4 & _ & H).
  apply bind_ok_inv in H as (hs & w5 & Hh%lift_ok & H).
  apply bind_ok_inv in H as (gs & w6 & Hg%lift_ok & H).
  apply bind_ok_inv in H as (chapters & w7 & _ & H).
  injection H as <- <-.
  eexists links, hs, gs, _. split; [exact Hlinks|]. split; [exact Hh|].
  split; [exact Hg|]. split; [reflexivity|]. done.
Qed.



(** X24.  An episode the builder assembles names nobody of its own feed
    item: lines 206 and 207 return only when no person of the item has a
    host or a guest role, since no name can be made canonical.  So the
    guests are empty, and the hosts are empty too, but for
    [this-week-in-bitcoin], whose hosts are then set to [chris]. *)
Theorem assembled_episode_names_nobody (env : Env) (item : Item) (show : string)
    (show_details : ShowDetails) (n : EpisodeNumber) (p : string)
    (sponsors : list string) (w w' : World) (ep : Episode) :
  make_episode env item show show_details n p sponsors w = (Ok ep, w') →
  guests ep = []
  ∧ hosts ep = (if String.eqb show "this-week-in-bitcoin" then ["chris"] else [])
  ∧ ∀ person, person ∈ podcast_persons item →
      in_roles (Host_Roles (Settings env) ++ Guest_Roles (Settings env)) person = false.
Proof.
  intros Hmake.
  destruct (make_episode_inv _ _ _ _ _ _ _ _ _ _ Hmake)
    as (links & hs & gs & e0 & _ & Hh & Hg & Hep & Hhs & Hgs & _).
  apply role_usernames_ok in Hh as [-> Hno_host].
  apply role_usernames_ok in Hg as [-> Hno_guest].
  rewrite Hep. rewrite bool_decide_eq_true_2 by done. rewrite andb_true_r.
  destruct (String.eqb show "this-week-in-bitcoin").
  - split; [done|]. split; [done|]. intros person Hin.
    by rewrite in_roles_app, Hno_host, Hno_guest.
  - split; [done|]. split; [done|]. intros person Hin.
    by rewrite in_roles_app, Hno_host, Hno_guest.
Qed.

Lemma assembled_episode_names_nobody_witness :
  let env := example_env false net_missing_schema in
  let item := solo_item "12: Halving" "https://twib.example/12" None in
  let r := make_episode env item "this-week-in-bitcoin" example_show (EpInt 12) "0012" []
             (initial_world (mkFS ∅ ∅)) in
  ∃ ep, r.1 = Ok ep ∧ guests ep = [] ∧ hosts ep = ["chris"].
Proof.
  cbv zeta.
  set (r := make_episode _ _ _ _ _ _ _ _).
  assert (H : ∃ ep, r.1 = Ok ep).
  { vm_compute. by eexists. }
  destruct H as (ep & Hr).
  assert (Hrun : r = (Ok ep, r.2)).
  { rewrite <- Hr. apply surjective_pairing. }
  destruct (assembled_episode_names_nobody _ _ _ _ _ _ _ _ _ _ Hrun) as (Hg & Hh & _).
  by exists ep.
Defined.

Lemma replace_go_match old new c r x :
  strip_prefix old (String c r) = Some x →
  replace_go old new 0 (String c r)
  = new ++ replace_go old new (String.length old - 1) r.
Proof. intros H. cbn [replace_go]. by rewrite H. Qed.

(** X25.  The links of an episode the builder assembles are what
    [get_links] made of the item's [content:encoded] (of its description
    when that is missing or empty).  For [the-launch] they always begin with
    the call-in line, which is put in front, followed by an empty line,
    unless the links begin with four asterisks; for every other show they
    are left as they are. *)
Theorem assembled_episode_links (env : Env) (item : Item) (show : string)
    (show_details : ShowDetails) (n : EpisodeNumber) (p : string)
    (sponsors : list string) (w w' : World) (ep : Episode) :
  make_episode env item show show_details n p sponsors w = (Ok ep, w') →
  ∃ links,
    get_links env (from_option id (item_description item) (nonempty (content_encoded item)))
    = Ok links
    ∧ (show ≠ "the-launch" → episode_links ep = links)
    ∧ (show = "the-launch" →
       ∃ rest, episode_links ep = launch_call ++ rest
               ∧ (strip_prefix "****" links = None →
                  rest = String newline (String newline links))).
Proof.
  intros Hmake.
  destruct (make_episode_inv _ _ _ _ _ _ _ _ _ _ Hmake)
    as (links & hs & gs & e0 & Hlinks & _ & _ & Hep & _ & _ & Hl).
  assert (Hepl : episode_links ep = patch_links show links).
  { rewrite Hep. by destruct (_ && _). }
  exists links. split; [exact Hlinks|]. rewrite Hepl. unfold patch_links. split.
  - intros Hne. destruct (String.eqb show "the-launch") eqn:E; [|done].
    by apply String.eqb_eq in E.
  - intros ->. rewrite String.eqb_refl.
    destruct (strip_prefix "****" links) as [x|] eqn:Hp.
    + destruct links as [|c r]; [done|]. unfold replace.
      rewrite (replace_go_match _ _ _ _ _ Hp). by eexists.
    + by eexists.
Qed.

Lemma assembled_episode_links_witness :
  let env := example_env false net_missing_schema in
  let item := solo_item "9: Liftoff" "https://launch.example/9" None in
  let r := make_episode env item "the-launch" example_show (EpInt 9) "0009" []
             (initial_world (mkFS ∅ ∅)) in
  ∃ ep rest, r.1 = Ok ep ∧ episode_links ep = launch_call ++ rest.
Proof.
  cbv zeta.
  set (r := make_episode _ _ _ _ _ _ _ _).
  assert (H : ∃ ep, r.1 = Ok ep).
  { vm_compute. by eexists. }
  destruct H as (ep & Hr).
  assert (Hrun : r = (Ok ep, r.2)).
  { rewrite <- Hr. apply surjective_pairing. }
  destruct (assembled_episode_links _ _ _ _ _ _ _ _ _ _ Hrun) as (links & _ & _ & Hlaunch).
  destruct (Hlaunch eq_refl) as (rest & Hrest & _).
  by exists ep, rest.
Defined.

(** ** Feeds *)

(** X26.  With [LATEST_ONLY] on, the items of a feed past the first
    [LATEST_ONLY_EP_LIMIT] have no influence on the run: two feeds that
    start with the same [LATEST_ONLY_EP_LIMIT] items and both go on beyond
    them are treated alike, whatever the further items are. *)
Theorem items_past_the_limit_are_ignored (env : Env) (show : string)
    (show_config : ShowDetails) (first rest1 rest2 : list Item) (w : World) :
  LATEST_ONLY (Settings env) = true →
  length first = LATEST_ONLY_EP_LIMIT (Settings env) →
  rest1 ≠ [] →
  rest2 ≠ [] →
  run_show env show show_config (first ++ rest1)%list w
  = run_show env show show_config (first ++ rest2)%list w.
Proof.
  intros Hon Hlen H1 H2. unfold run_show, submitted. rewrite Hon, <- Hlen.
  rewrite !take_app_le, !firstn_all by done.
  rewrite !bool_decide_eq_true_2; [done| |].
  - rewrite length_app. destruct rest2; [done | cbn; lia].
  - rewrite length_app. destruct rest1; [done | cbn; lia].
Qed.

Lemma items_past_the_limit_are_ignored_witness :
  let env :=
    mkEnv (mkSettings ["data"] 3 false true 1 ["host"] ["guest"]) example_config
      (net_ok "<html></html>")
      (λ _ _ _ _, Ok []) (λ _ _ _, Ok []) (λ t, Some (mkChaptersData t))
      (λ s, Ok s) (λ s, Ok s) (λ s, Ok s) (λ _ _ _ _, Ok [])
      (λ e, Text (title e)) (λ _, Ok []) (λ s, Ok s) no_unicode in
  let item t := example_item t "https://lup.example/x" None None in
  run_show env "lup" example_show [item "3: c"; item "2: b"] (initial_world (mkFS ∅ ∅))
  = run_show env "lup" example_show [item "3: c"; item "1: a"; item "0: z"]
      (initial_world (mkFS ∅ ∅)).
Proof.
  cbv zeta.
  by apply (items_past_the_limit_are_ignored _ "lup" example_show
              [example_item "3: c" "https://lup.example/x" None None]
              [example_item "2: b" "https://lup.example/x" None None]
              [example_item "1: a" "https://lup.example/x" None None;
               example_item "0: z" "https://lup.example/x" None None]).
Defined.

Lemma scraper_first_show (env : Env) (w : World) (show : string)
    (show_config : ShowDetails) (rest : list (string * ShowDetails)) :
  shows (CONFIGURATION env) = (show, show_config) :: rest →
  scraper env w
  = (Raise (first_show_exception env w show_config),
     add_request (add_event (Log INFO ScraperStarted) w)).
Proof.
  intros Hshows. unfold scraper, main, first_show_exception. rewrite Hshows.
  cbn [for_each].
  erewrite bind_ok; [|done]. apply bind_raise. apply bind_raise.
  unfold main_show, http_get, mbind, M_bind. cbn [requests add_event].
  by destruct (requests_get env (requests w) (show_rss show_config)).
Qed.

(** X27.  A feed that is served ends the run as well: whatever the answer
    to the request for the feed of the first show, line 476 then reads
    [host_platform], which [ShowDetails] does not declare.  The
    [AttributeError] is caught nowhere, so the feed is never parsed, no
    build task is submitted, and the process ends with status 1 after that
    one request. *)
Theorem served_feed_ends_the_run (env : Env) (w : World) (show : string)
    (show_config : ShowDetails) (rest : list (string * ShowDetails))
    (response : Response) :
  shows (CONFIGURATION env) = (show, show_config) :: rest →
  requests_get env (requests w) (show_rss show_config) = Ok response →
  scraper env w
  = (Raise AttributeError, add_request (add_event (Log INFO ScraperStarted) w))
  ∧ exit_status (scraper env w).1 = 1.
Proof.
  intros Hshows Hget.
  rewrite (scraper_first_show env w show show_config rest Hshows).
  unfold first_show_exception. by rewrite Hget.
Qed.

Lemma served_feed_ends_the_run_witness :
  let r := scraper (example_env false (net_ok "<rss></rss>")) (initial_world (mkFS ∅ ∅)) in
  r.1 = Raise AttributeError
  ∧ exit_status r.1 = 1
  ∧ requests r.2 = 1%nat
  ∧ log_of r.2 = [(INFO, ScraperStarted)].
Proof.
  cbv zeta.
  destruct (served_feed_ends_the_run (example_env false (net_ok "<rss></rss>"))
              (initial_world (mkFS ∅ ∅)) "lup" example_show []
              (mkResponse true "<rss></rss>") eq_refl eq_refl) as [Hrun Hexit].
  by rewrite Hrun.
Defined.

(** X28.  A feed that cannot be fetched ends the run: the exception of
    [requests.get] on the feed of the first show is caught nowhere, so the
    process ends with status 1 after that one request, with nothing
    written and the closing message never logged. *)
Theorem feed_fetch_failure_ends_the_run (env : Env) (w : World) (show : string)
    (show_config : ShowDetails) (rest : list (string * ShowDetails)) (e : Exc) :
  shows (CONFIGURATION env) = (show, show_config) :: rest →
  requests_get env (requests w) (show_rss show_config) = Raise e →
  scraper env w = (Raise e, add_request (add_event (Log INFO ScraperStarted) w))
  ∧ exit_status (scraper env w).1 = 1.
Proof.
  intros Hshows Hget.
  rewrite (scraper_first_show env w show show_config rest Hshows).
  unfold first_show_exception. by rewrite Hget.
Qed.

Lemma feed_fetch_failure_ends_the_run_witness :
  let r := scraper offline_env (initial_world (mkFS ∅ ∅)) in
  r.1 = Raise ConnectionError ∧ exit_status r.1 = 1 ∧ fs r.2 = mkFS ∅ ∅.
Proof.
  cbv zeta.
  destruct (feed_fetch_failure_ends_the_run offline_env (initial_world (mkFS ∅ ∅))
              "lup" example_show [] ConnectionError eq_refl eq_refl) as [Hrun Hexit].
  by rewrite Hrun.
Defined.

(** X1.  Once the configuration is loaded, no run of the scraper gets past
    its first show.  Every run leaves the files, the directories and both
    registries as they were and makes at most one request, that for the
    feed of the first show; and a run ends normally exactly when no show is
    configured. *)
Theorem run_stops_at_first_show (env : Env) (w : World) :
  let r := scraper env w in
  fs r.2 = fs w
  ∧ SPONSORS r.2 = SPONSORS w
  ∧ PARTICIPANTS r.2 = PARTICIPANTS w
  ∧ (requests r.2 ≤ requests w + 1)%nat
  ∧ (r.1 = Ok () ↔ shows (CONFIGURATION env) = [])
  ∧ (exit_status r.1 = 0 ↔ shows (CONFIGURATION env) = []).
Proof.
  cbv zeta. destruct (shows (CONFIGURATION env)) as [|[show show_config] rest] eqn:Hshows.
  - assert (Hrun : scraper env w
                   = (Ok (), add_event (Log SUCCESS AllDone)
                               (add_event (Log INFO ScraperStarted) w))).
    { unfold scraper, main. by rewrite Hshows. }
    rewrite Hrun. cbn. repeat split; lia.
  - rewrite (scraper_first_show env w show show_config rest Hshows). cbn.
    repeat split; try done; lia.
Qed.

